(** * Helper wrappers around a Haystack pipeline: a verified model

    Shallow embedding of [src/haystack_lib.py] ([Haystack_Logs],
    [TimedComponent], [MiniPHILLM], [MiniPHIChat],
    [HackernewsNewestFetcher.run]) and [src/helper.py] ([load_env],
    [get_env_var]).

    Python values that come from the network are JSON values; calls into
    collaborators (requests, the Haystack pipeline, the [Document]
    constructor, the clock) are oracles over an abstract world state, and
    every call and every [print] is recorded in a log so that statements
    about "what was requested" and "what was printed" can be made. *)

From stdpp Require Import base option list gmap strings.
From Stdlib Require Import ZArith Ascii PrimFloat.

Open Scope Z_scope.

(** ** JSON values, as produced by [Response.json()] *)

(** Numbers carry an integer payload: the only operations the code applies
    to a decoded value are [in], subscripting and slicing, and all three
    raise [TypeError] on any number, whatever its value. *)
#[warnings="-register-all"]
Inductive json : Type :=
| JNull
| JBool (b : bool)
| JNum (n : Z)
| JStr (s : string)
| JArr (l : list json)
| JObj (o : gmap string json).

(** ** Exceptions *)

(** [External n] stands for an exception raised inside a collaborator
    ([requests.get], [Pipeline.run], [Document(...)]); the tag tells them
    apart. The others are raised by the Python operations of the code. *)
Inductive exn : Type :=
| TypeError
| KeyError
| IndexError
| JSONDecodeError
| External (tag : nat).

(** The result of evaluating a pure Python expression. *)
Definition res (A : Type) : Type := exn + A.

#[global] Instance res_ret : MRet res := λ A a, inr a.
#[global] Instance res_bind : MBind res := λ A B f r,
  match r with
  | inl e => inl e
  | inr a => f a
  end.

(** ** Python operations on decoded values *)

Definition is_str (key : string) (j : json) : bool :=
  match j with
  | JStr s => bool_decide (s = key)
  | _ => false
  end.

(** [key in s] for two strings: [key] occurs somewhere in [s]. *)
Fixpoint is_substring (key s : string) : bool :=
  String.prefix key s ||
  match s with
  | EmptyString => false
  | String _ s' => is_substring key s'
  end.

(** [key in j]: key membership for a dict, element membership for a list,
    substring test for a str, [TypeError] for anything else. *)
Definition contains (key : string) (j : json) : res bool :=
  match j with
  | JObj o => inr (bool_decide (is_Some (o !! key)))
  | JArr l => inr (existsb (is_str key) l)
  | JStr s => inr (is_substring key s)
  | JNull | JBool _ | JNum _ => inl TypeError
  end.

(** [j[key]] with a str key: lookup in a dict ([KeyError] when absent);
    lists and strs only take integer indices, the rest is not
    subscriptable. *)
Definition getitem (j : json) (key : string) : res json :=
  match j with
  | JObj o =>
      match o !! key with
      | Some v => inr v
      | None => inl KeyError
      end
  | _ => inl TypeError
  end.

(** [l[0:k]] on a sequence: a negative bound counts from the end and is
    clamped at 0; a bound past the end is clamped at the length. *)
Definition py_slice {A} (l : list A) (k : Z) : list A :=
  if k <? 0
  then take (Z.to_nat (Z.max 0 (Z.of_nat (length l) + k))) l
  else take (Z.to_nat k) l.

Fixpoint chars (s : string) : list json :=
  match s with
  | EmptyString => []
  | String c s' => JStr (String c EmptyString) :: chars s'
  end.

(** [j[0:top_k]] followed by iteration: a list gives its elements, a str
    its characters; a dict cannot be indexed by a slice ([TypeError], a
    [KeyError] from Python 3.12 on), the rest is not subscriptable. *)
Definition slice (j : json) (top_k : Z) : res (list json) :=
  match j with
  | JArr l => inr (py_slice l top_k)
  | JStr s => inr (py_slice (chars s) top_k)
  | JObj _ | JNull | JBool _ | JNum _ => inl TypeError
  end.

(** ** Collaborator data *)

(** [haystack.Document]: the two fields the code sets. *)
Record Document : Type := mkDocument {
  content : json;
  meta : gmap string json;
}.

(** [requests.Response]: the status code (shown by its [repr]) and the
    decoded body; [None] when the body is not valid JSON. *)
Record Response : Type := mkResponse {
  status_code : Z;
  body : option json;
}.

(** [post.json()] *)
Definition json_of (r : Response) : res json :=
  match body r with
  | Some j => inr j
  | None => inl JSONDecodeError
  end.

(** The two URLs the fetcher requests:
    [.../v0/topstories.json?print=pretty] and
    [.../v0/item/{id}.json?print=pretty]. *)
Inductive endpoint : Type :=
| TopStories
| Item (id : json).

(** What the code prints: [print("text in ", id)] and
    [print(f"Can't download {post}, skipped")] in the fetcher,
    [print(f"{self.name} took {end - start:.2f} seconds")] in the timing
    wrapper. A message keeps the values that are formatted. *)
Inductive message : Type :=
| TextIn (id : json)
| CantDownload (post : Response)
| Took (name : string) (seconds : float).

Inductive event : Type :=
| Get (e : endpoint)
| PipelineRun (url : json)
| Print (m : message).

(** [article["converter"]["documents"][0]] on the list of documents the
    pipeline returned. *)
Definition first_document (documents : list Document) : res Document :=
  match documents with
  | d :: _ => inr d
  | [] => inl IndexError
  end.

(** ** The interpreter state and its monad *)

Section Program.

Context {W : Type}.

Record state : Type := mkState {
  world : W;
  log : list event;
}.

Definition M (A : Type) : Type := state → res A * state.

#[local] Instance M_ret : MRet M := λ A a s, (inr a, s).
#[local] Instance M_bind : MBind M := λ A B f m s,
  match m s with
  | (inl e, s') => (inl e, s')
  | (inr a, s') => f a s'
  end.

(** A pure expression evaluated in the current state. *)
Definition lift {A} (r : res A) : M A := λ s, (r, s).

Definition emit (ev : event) : M unit :=
  λ s, (inr (), mkState (world s) (log s ++ [ev])).

(** A call into a collaborator: it may change the world. *)
Definition call {A} (f : W → res A * W) : M A :=
  λ s, let '(r, w) := f (world s) in (r, mkState w (log s)).

(** [try: body / except: handler]: the bare [except] catches everything;
    what [body] did to the state before raising stays done. *)
Definition try_except {A} (body handler : M A) : M A :=
  λ s, match body s with
       | (inl _, s') => handler s'
       | (inr a, s') => (inr a, s')
       end.

(** ** The collaborators *)

Variable http_get : endpoint → W → res Response * W.
Variable pipeline_run : json → W → res (list Document) * W.
(** [Some e] when [Document(content=c, meta=m)] raises [e]. *)
Variable Document_init : json → gmap string json → option exn.

Definition requests_get (e : endpoint) : M Response :=
  emit (Get e);; call (http_get e).

Definition html_pipeline_run (url : json) : M (list Document) :=
  emit (PipelineRun url);; call (pipeline_run url).

Definition new_Document (c : json) (m : gmap string json) : M Document :=
  match Document_init c m with
  | Some e => lift (inl e)
  | None => mret (mkDocument c m)
  end.

Definition print (m : message) : M unit := emit (Print m).

(** ** [HackernewsNewestFetcher.run] *)

(** The body of the [for] loop, for one identifier. *)
Definition process_story (id : json) (articles : list Document)
  : M (list Document) :=
  post ← requests_get (Item id);
  has_url ← lift (json_of post ≫= contains "url");
  if (has_url : bool) then
    try_except
      (url ← lift (j ← json_of post; getitem j "url");
       article ← html_pipeline_run url;
       doc ← lift (first_document article);
       mret (articles ++ [doc]))
      (print (CantDownload post);; mret articles)
  else
    has_text ← lift (json_of post ≫= contains "text");
    if (has_text : bool) then
      print (TextIn id);;
      try_except
        (text ← lift (j ← json_of post; getitem j "text");
         title ← lift (j ← json_of post; getitem j "title");
         doc ← new_Document text {[ "title" := title ]};
         mret (articles ++ [doc]))
        (print (CantDownload post);; mret articles)
    else mret articles.

Fixpoint for_each (ids : list json) (articles : list Document)
  : M (list Document) :=
  match ids with
  | [] => mret articles
  | id :: rest =>
      articles' ← process_story id articles;
      for_each rest articles'
  end.

(** The returned dict has the single key ["articles"]; its value is
    returned here. *)
Definition run (top_k : Z) : M (list Document) :=
  trending_list ← requests_get TopStories;
  ids ← lift (j ← json_of trending_list; slice j top_k);
  for_each ids [].

(** ** [TimedComponent] *)

(** [time.time()]: reads the clock, never raises. *)
Variable clock : W → float * W.

Definition time_time : M float :=
  call (λ w, let '(t, w') := clock w in (inr t, w')).

(** A Haystack component: its class name and its [run] method, which
    takes the keyword arguments and may do anything to the world. *)
Record Component (Kwargs Result : Type) : Type := mkComponent {
  class_name : string;
  component_run : Kwargs → M Result;
}.
Arguments class_name {Kwargs Result} _.
Arguments component_run {Kwargs Result} _ _.

Record TimedComponent (Kwargs Result : Type) : Type := mkTimedComponent {
  component : Component Kwargs Result;
  name : string;
}.
Arguments component {Kwargs Result} _.
Arguments name {Kwargs Result} _.

(** [TimedComponent.__init__] *)
Definition TimedComponent_init {Kwargs Result}
    (c : Component Kwargs Result) : TimedComponent Kwargs Result :=
  mkTimedComponent Kwargs Result c (class_name c).

(** [TimedComponent.run] *)
Definition TimedComponent_run {Kwargs Result}
    (self : TimedComponent Kwargs Result) (kwargs : Kwargs) : M Result :=
  start ← time_time;
  result ← component_run (component self) kwargs;
  stop ← time_time;
  print (Took (name self) (PrimFloat.sub stop start));;
  mret result.

End Program.

Arguments state : clear implicits.
Arguments M : clear implicits.
Arguments Component : clear implicits.
Arguments TimedComponent : clear implicits.
Arguments class_name {W Kwargs Result} _.
Arguments component_run {W Kwargs Result} _ _.
Arguments component {W Kwargs Result} _.
Arguments name {W Kwargs Result} _.

(** ** [helper.get_env_var] *)

Module Helper.

(** A character is a code point below 256. [str.strip()] without argument
    removes the characters for which [str.isspace] holds: TAB to CR, FS to
    US, space, NEL and NBSP. *)
Definition is_space (c : ascii) : bool :=
  let n := N_of_ascii c in
  ((9 <=? n) && (n <=? 13) || (28 <=? n) && (n <=? 32)
   || (n =? 133) || (n =? 160))%N.

Definition is_comma (c : ascii) : bool := bool_decide (c = ","%char).

(** [s.lstrip(chars)]: drop the leading characters that are in [chars]. *)
Fixpoint lstrip (p : ascii → bool) (s : string) : string :=
  match s with
  | EmptyString => EmptyString
  | String c s' => if p c then lstrip p s' else s
  end.

(** [s.rstrip(chars)]: drop the trailing characters that are in [chars]. *)
Fixpoint rstrip (p : ascii → bool) (s : string) : string :=
  match s with
  | EmptyString => EmptyString
  | String c s' =>
      match rstrip p s' with
      | EmptyString => if p c then EmptyString else String c EmptyString
      | r => String c r
      end
  end.

(** [s.strip(chars)] removes at both ends. *)
Definition strip (p : ascii → bool) (s : string) : string :=
  rstrip p (lstrip p s).

(** [os.getenv(name)] on the process environment. *)
Definition os_getenv (environ : gmap string string) (key : string)
  : option string :=
  environ !! key.

Definition get_env_var (environ : gmap string string)
    (env_variable : string) : option string :=
  let value := os_getenv environ env_variable in
  match value with
  | None => None
  | Some value => Some (rstrip is_comma (strip is_space value))
  end.

(** Vocabulary for the statements. *)
Fixpoint all_chars (p : ascii → bool) (s : string) : bool :=
  match s with
  | EmptyString => true
  | String c s' => p c && all_chars p s'
  end.

Definition first_char (s : string) : option ascii :=
  match s with
  | EmptyString => None
  | String c _ => Some c
  end.

Fixpoint last_char (s : string) : option ascii :=
  match s with
  | EmptyString => None
  | String c EmptyString => Some c
  | String _ s' => last_char s'
  end.

(** [r] is [v] with the characters of [p] removed at the left end. *)
Definition lstripped (p : ascii → bool) (v r : string) : Prop :=
  ∃ pre, v = pre +:+ r ∧ all_chars p pre = true ∧
         (∀ c, first_char r = Some c → p c = false).

(** [r] is [v] with the characters of [p] removed at the right end. *)
Definition rstripped (p : ascii → bool) (v r : string) : Prop :=
  ∃ post, v = r +:+ post ∧ all_chars p post = true ∧
          (∀ c, last_char r = Some c → p c = false).

End Helper.

(** ** Reading the log *)

(** The endpoints requested, in order. *)
Definition requests (l : list event) : list endpoint :=
  omap (λ ev, match ev with Get e => Some e | _ => None end) l.

(** The messages printed, in order. *)
Definition prints (l : list event) : list message :=
  omap (λ ev, match ev with Print m => Some m | _ => None end) l.

(** The identifiers whose story record was requested, in order. *)
Definition item_requests (l : list event) : list json :=
  omap (λ ev, match ev with Get (Item id) => Some id | _ => None end) l.

(** What [article["converter"]["documents"][0]] gives on the outcome of
    a pipeline invocation. *)
Definition converted (r : res (list Document)) : res Document :=
  r ≫= first_document.

(** ** Concrete upstreams, for the scenarios *)

Module Demo.

Definition ok (j : json) : Response := mkResponse 200 (Some j).

Definition story (fields : list (string * json)) : json :=
  JObj (list_to_map fields).

(** An upstream that answers the same way every time. *)
Definition upstream (index : res Response) (items : json → res Response)
    (e : endpoint) (w : unit) : res Response * unit :=
  (match e with TopStories => index | Item id => items id end, w).

Definition no_pipeline (url : json) (w : unit) : res (list Document) * unit :=
  (inl (External 0), w).

Definition Document_accepts (c : json) (m : gmap string json) : option exn :=
  None.

Definition s0 : state unit := mkState () [].

(** Index [[101, 102, 103]], three stories with inline text. *)
Definition index3 : res Response :=
  inr (ok (JArr [JNum 101; JNum 102; JNum 103])).

Definition text_story (id : json) : res Response :=
  match id with
  | JNum 101 => inr (ok (story [("title", JStr "A"); ("text", JStr "a")]))
  | JNum 102 => inr (ok (story [("title", JStr "B"); ("text", JStr "b")]))
  | JNum 103 => inr (ok (story [("title", JStr "C"); ("text", JStr "c")]))
  | _ => inl (External 404)
  end.

Definition run3 (top_k : Z) : res (list Document) * state unit :=
  run (upstream index3 text_story) no_pipeline Document_accepts top_k s0.

Definition doc (text title : string) : Document :=
  mkDocument (JStr text) {[ "title" := JStr title ]}.

(** Index [[1, 2]], two stories with a url; the first download fails. *)
Definition index2 : res Response := inr (ok (JArr [JNum 1; JNum 2])).

Definition url_story (id : json) : res Response :=
  match id with
  | JNum 1 => inr (ok (story [("title", JStr "bad"); ("url", JStr "http://bad")]))
  | JNum 2 => inr (ok (story [("title", JStr "good"); ("url", JStr "http://good")]))
  | _ => inl (External 404)
  end.

Definition good_page : Document := mkDocument (JStr "page") ∅.

Definition flaky_pipeline (url : json) (w : unit)
  : res (list Document) * unit :=
  (if is_str "http://good" url then inr [good_page] else inl (External 7), w).

Definition run2 (top_k : Z) : res (list Document) * state unit :=
  run (upstream index2 url_story) flaky_pipeline Document_accepts top_k s0.

(** Index [[1]]; the record request itself fails, or the item is [null],
    or it is a poll without url and text. *)
Definition index1 : res Response := inr (ok (JArr [JNum 1])).

Definition unreachable_story (id : json) : res Response := inl (External 503).
Definition null_story (id : json) : res Response := inr (ok JNull).
Definition poll_story (id : json) : res Response :=
  inr (ok (story [("title", JStr "poll")])).

Definition run1 (items : json → res Response) (top_k : Z)
  : res (list Document) * state unit :=
  run (upstream index1 items) no_pipeline Document_accepts top_k s0.

End Demo.

(** ** More readings of the log *)

Definition is_skip_notice (ev : event) : bool :=
  match ev with Print (CantDownload _) => true | _ => false end.

Definition is_text_notice (ev : event) : bool :=
  match ev with Print (TextIn _) => true | _ => false end.

Definition is_pipeline_run (ev : event) : bool :=
  match ev with PipelineRun _ => true | _ => false end.

Definition is_item_request (ev : event) : bool :=
  match ev with Get (Item _) => true | _ => false end.

(** How many events of a kind a log holds. *)
Definition count (p : event → bool) (l : list event) : nat :=
  length (List.filter p l).

(** The stories passed over in silence, read from the events of the
    loop: a record request followed by no pipeline invocation and no
    printed line of its own, that is, by the next request or by the end
    of the events. *)
Fixpoint omitted (evs : list event) : nat :=
  match evs with
  | [] => 0
  | Get (Item _) :: rest =>
      match rest with
      | [] | Get _ :: _ => S (omitted rest)
      | _ => omitted rest
      end
  | _ :: rest => omitted rest
  end.

(** ** A [TimedComponent] is a component itself *)

(** The class is decorated with [@component] and has a [run] method, so a
    wrapper can be wrapped again; its class name is ["TimedComponent"]. *)
Definition TimedComponent_as_component {W Kwargs Result}
    (clock : W → float * W) (t : TimedComponent W Kwargs Result)
  : Component W Kwargs Result :=
  mkComponent Kwargs Result "TimedComponent" (TimedComponent_run clock t).

(** ** [Haystack_Logs] *)

Module Logs.

(** The numeric levels of the [logging] module. *)
Definition DEBUG : Z := 10.
Definition WARNING : Z := 30.
Definition ERROR : Z := 40.

(** [logging.BASIC_FORMAT], used by [basicConfig] when no format is
    given. *)
Definition BASIC_FORMAT : string := "%(levelname)s:%(name)s:%(message)s".

(** What [tracing.tracer.actual_tracer] can be. *)
Inductive tracer_impl : Type :=
| NullTracer
| LoggingTracer (tags_color_strings : gmap string string)
| OtherTracer (tag : nat).

(** An entry of [warnings.filters]; [IgnoreAll] is the entry that
    [filterwarnings('ignore')] builds, which matches every warning. *)
Inductive warning_filter : Type :=
| IgnoreAll
| OtherFilter (tag : nat).

#[global] Instance warning_filter_eq_dec : EqDecision warning_filter.
Proof. solve_decision. Defined.

(** The global state the function touches: the root logger (the formats
    of its handlers, its level), the level of the logger ["haystack"],
    the proxy tracer of [haystack.tracing], and the warning filters. *)
Record config : Type := mkConfig {
  root_handlers : list string;
  root_level : Z;
  haystack_level : Z;
  is_content_tracing_enabled : bool;
  actual_tracer : tracer_impl;
  filters : list warning_filter;
}.

(** [logging.basicConfig(format=..., level=...)]: does nothing when the
    root logger already has a handler; otherwise installs one stream
    handler with the format and sets the level of the root logger. *)
Definition basicConfig (format : option string) (level : Z) (c : config)
  : config :=
  match root_handlers c with
  | [] =>
      mkConfig [default BASIC_FORMAT format] level (haystack_level c)
        (is_content_tracing_enabled c) (actual_tracer c) (filters c)
  | _ :: _ => c
  end.

(** [logging.getLogger("haystack").setLevel(level)] *)
Definition haystack_setLevel (level : Z) (c : config) : config :=
  mkConfig (root_handlers c) (root_level c) level
    (is_content_tracing_enabled c) (actual_tracer c) (filters c).

(** [tracing.tracer.is_content_tracing_enabled = b] *)
Definition set_content_tracing (b : bool) (c : config) : config :=
  mkConfig (root_handlers c) (root_level c) (haystack_level c) b
    (actual_tracer c) (filters c).

(** [tracing.enable_tracing(t)] replaces the actual tracer. *)
Definition enable_tracing (t : tracer_impl) (c : config) : config :=
  mkConfig (root_handlers c) (root_level c) (haystack_level c)
    (is_content_tracing_enabled c) t (filters c).

(** [list.remove(x)] without the [ValueError]: the first occurrence goes. *)
Fixpoint remove_first (x : warning_filter) (l : list warning_filter)
  : list warning_filter :=
  match l with
  | [] => []
  | y :: l' => if decide (x = y) then l' else y :: remove_first x l'
  end.

(** [warnings.filterwarnings('ignore')]: the entry is taken out of the
    list if it is there and put at the front. *)
Definition filterwarnings_ignore (c : config) : config :=
  mkConfig (root_handlers c) (root_level c) (haystack_level c)
    (is_content_tracing_enabled c) (actual_tracer c)
    (IgnoreAll :: remove_first IgnoreAll (filters c)).

Definition ESC : string := String (ascii_of_nat 27) EmptyString.

Definition tags_color_strings : gmap string string :=
  {[ "haystack.component.input" := ESC +:+ "[1;31m";
     "haystack.component.name" := ESC +:+ "[1;34m" ]}.

Definition Haystack_Logs (level : string) (c : config) : config :=
  if decide (level = "warning") then
    let c := basicConfig (Some "%(levelname)s - %(name)s -  %(message)s")
               WARNING c in
    let c := haystack_setLevel DEBUG c in
    let c := set_content_tracing true c in
    enable_tracing (LoggingTracer tags_color_strings) c
  else
    let c := haystack_setLevel ERROR c in
    let c := basicConfig None ERROR c in
    let c := filterwarnings_ignore c in
    set_content_tracing false c.

(** Several calls, one after the other. *)
Definition Haystack_Logs_seq (levels : list string) (c : config) : config :=
  foldl (λ c level, Haystack_Logs level c) c levels.

(** The filter that decides about a warning is the first one that matches
    it; [IgnoreAll] matches all of them. *)
Definition all_warnings_ignored (c : config) : Prop :=
  head (filters c) = Some IgnoreAll.

(** A Python process that has not configured anything yet. *)
Definition fresh : config :=
  mkConfig [] WARNING 0 false NullTracer [].

End Logs.

(** ** [helper.load_env] *)

Module Dotenv.

Inductive load_error : Type :=
| FileNotFoundError (msg : string).

(** [load_dotenv(dotenv_path=...)] with the default [override=False], on
    the variables read from the file: a variable that the environment
    already has is left alone, and a key without a value sets nothing. *)
Definition load_dotenv (values : gmap string (option string))
    (environ : gmap string string) : gmap string string :=
  map_fold (λ k v env,
              if decide (is_Some (env !! k)) then env
              else match v with
                   | Some x => <[k := x]> env
                   | None => env
                   end)
           environ values.

(** [load_env]: [env_path] is what [find_dotenv()] returned (the empty
    string when there is no file), [dotenv_values] what the file at a
    path holds once parsed in an environment. *)
Definition load_env (env_path : string)
    (dotenv_values : string → gmap string string → gmap string (option string))
    (environ : gmap string string) : load_error + gmap string string :=
  if decide (env_path = "") then
    inl (FileNotFoundError "Could not find .env file")
  else
    inr (load_dotenv (dotenv_values env_path environ) environ).

End Dotenv.

(** ** [MiniPHILLM] and [MiniPHIChat] *)

Module LLM.

(** What the constructors can raise: [getenv(...)] gives [None] for an
    unset variable, and [None] has no [strip]. [Collaborator e] is an
    exception of the generator's own constructor. *)
Inductive init_exn : Type :=
| AttributeError
| Collaborator (e : exn).

(** The arguments the generator is constructed with. *)
Record generator : Type := mkGenerator {
  api_base_url : string;
  api_key : string;
  model : string;
  timeout : Z;
  generation_kwargs : option (gmap string json);
}.

(** [getenv(name).strip().rstrip(',')] *)
Definition getenv_cleaned (environ : gmap string string) (name : string)
  : init_exn + string :=
  match Helper.os_getenv environ name with
  | None => inl AttributeError
  | Some value =>
      inr (Helper.rstrip Helper.is_comma (Helper.strip Helper.is_space value))
  end.

Section Wrappers.

(** [Some e] when the generator's constructor raises [e] on these
    arguments. *)
Variable OpenAIGenerator_init : generator → option exn.
Variable OpenAIChatGenerator_init : generator → option exn.

(** [MiniPHILLM.__init__]: the value of [self.llm]. *)
Definition MiniPHILLM_init (environ : gmap string string)
  : init_exn + generator :=
  match getenv_cleaned environ "API_BASE_URL" with
  | inl e => inl e
  | inr API_BASE_URL =>
      match getenv_cleaned environ "MODEL_PHI" with
      | inl e => inl e
      | inr MODEL_PHI =>
          let llm := mkGenerator API_BASE_URL "not-needed" MODEL_PHI 100 None in
          match OpenAIGenerator_init llm with
          | Some e => inl (Collaborator e)
          | None => inr llm
          end
      end
  end.

(** [MiniPHIChat.__init__] *)
Definition MiniPHIChat_init (kwargs : option (gmap string json))
    (environ : gmap string string) : init_exn + generator :=
  match getenv_cleaned environ "API_BASE_URL" with
  | inl e => inl e
  | inr API_BASE_URL =>
      match getenv_cleaned environ "MODEL_PHI" with
      | inl e => inl e
      | inr MODEL_PHI =>
          let llm :=
            mkGenerator API_BASE_URL "not-needed" MODEL_PHI 100 kwargs in
          match OpenAIChatGenerator_init llm with
          | Some e => inl (Collaborator e)
          | None => inr llm
          end
      end
  end.

(** [generation_kwargs or {}]: [None] and the empty dict are falsy. *)
Definition or_empty (kwargs : option (gmap string json)) : gmap string json :=
  match kwargs with
  | None => ∅
  | Some m => if (size m =? 0)%nat then ∅ else m
  end.

(** [result[key]] on the dict the generator returned. *)
Definition result_item (result : gmap string json) (key : string) : res json :=
  match result !! key with
  | Some v => inr v
  | None => inl KeyError
  end.

Context {W : Type}.

(** [self.llm.run(prompt=..., system_prompt=..., generation_kwargs=...)] *)
Variable llm_run :
  generator → string → option string → gmap string json →
  W → res (gmap string json) * W.

(** [MiniPHILLM.run] *)
Definition MiniPHILLM_run (llm : generator) (prompt : string)
    (system_prompt : option string) (kwargs : option (gmap string json))
    (w : W) : res (gmap string json) * W :=
  match llm_run llm prompt system_prompt (or_empty kwargs) w with
  | (inl e, w') => (inl e, w')
  | (inr result, w') =>
      (replies ← result_item result "replies";
       meta ← result_item result "meta";
       mret ({[ "replies" := replies; "meta" := meta ]} : gmap string json),
       w')
  end.

(** [MiniPHIChat.run] *)
Definition MiniPHIChat_run (llm : generator) (prompt : string)
    (system_prompt : option string) (kwargs : option (gmap string json))
    (w : W) : res (gmap string json) * W :=
  match llm_run llm prompt system_prompt (or_empty kwargs) w with
  | (inl e, w') => (inl e, w')
  | (inr result, w') =>
      (replies ← result_item result "replies";
       meta ← result_item result "meta";
       mret ({[ "replies" := replies; "meta" := meta ]} : gmap string json),
       w')
  end.

End Wrappers.

End LLM.

(** ** Further concrete inputs *)

Module Scenario.

Definition page1 : Document := mkDocument (JStr "first part") ∅.
Definition page2 : Document := mkDocument (JStr "second part") ∅.

(** A pipeline that returns two documents for every page. *)
Definition two_pages (url : json) (w : unit) : res (list Document) * unit :=
  (inr [page1; page2], w).

(** A process whose root logger was configured by someone else. *)
Definition configured : Logs.config :=
  Logs.mkConfig ["%(message)s"] 20 0 false Logs.NullTracer [].

(** A [.env] file that gives the two variables, the first one with the
    untidy ending the cleanup is there for. *)
Definition dotenv_file : gmap string (option string) :=
  {[ "API_BASE_URL" := Some "http://localhost:8080/v1, ";
     "MODEL_PHI" := Some "phi-3" ]}.

Definition dotenv_values (path : string) (environ : gmap string string)
  : gmap string (option string) :=
  dotenv_file.

(** An environment in which the model is already chosen. *)
Definition environ : gmap string string := {[ "MODEL_PHI" := "phi-4" ]}.

Definition both_set : gmap string string :=
  {[ "API_BASE_URL" := "http://localhost:8080/v1,"; "MODEL_PHI" := "phi-3 " ]}.

Definition accepts (g : LLM.generator) : option exn := None.

(** A generator that answers every prompt the same way, with one key
    more than the wrapper passes on. *)
Definition answer : gmap string json :=
  {[ "replies" := JArr [JStr "hello"];
     "meta" := JArr [JObj ∅];
     "usage" := JNum 7 ]}.

Definition llm_run (llm : LLM.generator) (prompt : string)
    (system_prompt : option string) (kwargs : gmap string json) (w : unit)
  : res (gmap string json) * unit :=
  (inr answer, w).

Definition llm : LLM.generator :=
  LLM.mkGenerator "http://localhost:8080/v1" "not-needed" "phi-3" 100 None.

End Scenario.

(** * Properties *)

(** ** Slicing *)

Example py_slice_examples :
  py_slice [1; 2; 3] 2 = [1; 2] ∧ py_slice [1; 2; 3] 5 = [1; 2; 3] ∧
  py_slice [1; 2; 3] 0 = [] ∧ py_slice [1; 2; 3] (-1) = [1; 2] ∧
  py_slice [1; 2; 3] (-3) = [] ∧ py_slice [1; 2; 3] (-7) = [].
Proof. by vm_compute. Qed.

Example contains_examples :
  contains "url" (JObj {[ "url" := JStr "http://x" ]}) = inr true ∧
  contains "url" (JObj {[ "text" := JStr "url" ]}) = inr false ∧
  contains "url" (JArr [JStr "url"]) = inr true ∧
  contains "url" (JStr "hurdle") = inr false ∧
  contains "url" (JStr "my url") = inr true ∧
  contains "url" JNull = inl TypeError.
Proof. by vm_compute. Qed.

Lemma py_slice_nonneg {A} (l : list A) (k : Z) :
  0 ≤ k → py_slice l k = take (Z.to_nat k) l.
Proof.
  intros Hk. unfold py_slice.
  destruct (Z.ltb_spec k 0) as [Hlt | _]; [lia | reflexivity].
Qed.

Lemma py_slice_length_le {A} (l : list A) (k : Z) :
  0 ≤ k → (length (py_slice l k) ≤ Z.to_nat k)%nat.
Proof.
  intros Hk. rewrite py_slice_nonneg by done. rewrite length_take. lia.
Qed.

Lemma py_slice_all {A} (l : list A) (k : Z) :
  Z.of_nat (length l) ≤ k → py_slice l k = l.
Proof.
  intros Hk. rewrite py_slice_nonneg by lia. apply take_ge. lia.
Qed.

Lemma py_slice_nil {A} (l : list A) (k : Z) :
  k = 0 ∨ Z.of_nat (length l) ≤ - k → py_slice l k = [].
Proof.
  intros [-> | Hk]; [reflexivity |].
  unfold py_slice. destruct (Z.ltb_spec k 0) as [Hlt | Hge].
  - replace (Z.to_nat _) with 0%nat by lia. reflexivity.
  - assert (length l = 0%nat) as Hl by lia.
    destruct l; [by rewrite take_nil | done].
Qed.

Lemma py_slice_negative {A} (l : list A) (k : Z) :
  k < 0 → py_slice l k = take (length l - Z.to_nat (- k)) l.
Proof.
  intros Hk. unfold py_slice.
  destruct (Z.ltb_spec k 0) as [_ | Hge]; [| lia].
  f_equal. lia.
Qed.

(** ** Reading the log *)

Lemma requests_app l1 l2 : requests (l1 ++ l2) = requests l1 ++ requests l2.
Proof. apply omap_app. Qed.

Lemma prints_app l1 l2 : prints (l1 ++ l2) = prints l1 ++ prints l2.
Proof. apply omap_app. Qed.

Lemma item_requests_app l1 l2 :
  item_requests (l1 ++ l2) = item_requests l1 ++ item_requests l2.
Proof. apply omap_app. Qed.

(** ** One story *)

Ltac unfold_story :=
  unfold process_story, requests_get, html_pipeline_run,
    new_Document, print, call, emit, lift, try_except, json_of, converted;
  unfold mbind, mret, M_bind, M_ret, res_bind; simpl.

Section Fetcher_facts.

Context {W : Type}.
Variable http_get : endpoint → W → res Response * W.
Variable pipeline_run : json → W → res (list Document) * W.
Variable Document_init : json → gmap string json → option exn.

#[local] Abbreviation process_story :=
  (process_story http_get pipeline_run Document_init).
#[local] Abbreviation for_each :=
  (for_each http_get pipeline_run Document_init).
#[local] Abbreviation run := (run http_get pipeline_run Document_init).

(** The per-identifier request is outside every [try]: when it raises,
    the story raises. *)
Lemma process_story_get_raises id articles s e w' :
  http_get (Item id) (world s) = (inl e, w') →
  process_story id articles s
  = (inl e, mkState w' (log s ++ [Get (Item id)])).
Proof. intros Hget. unfold_story. by rewrite Hget. Qed.

Lemma process_story_neither id articles s post o w' :
  http_get (Item id) (world s) = (inr post, w') →
  body post = Some (JObj o) →
  o !! "url" = None →
  o !! "text" = None →
  process_story id articles s
  = (inr articles, mkState w' (log s ++ [Get (Item id)])).
Proof.
  intros Hget Hbody Hurl Htext. unfold_story.
  rewrite Hget, Hbody; simpl. rewrite Hurl; simpl. by rewrite Htext.
Qed.

Lemma process_story_url_failed id articles s post o url w' e :
  http_get (Item id) (world s) = (inr post, w') →
  body post = Some (JObj o) →
  o !! "url" = Some url →
  converted (pipeline_run url w').1 = inl e →
  process_story id articles s
  = (inr articles,
     mkState (pipeline_run url w').2
       (log s ++ [Get (Item id); PipelineRun url; Print (CantDownload post)])).
Proof.
  intros Hget Hbody Hurl Hfail. unfold_story.
  rewrite Hget, Hbody; simpl. rewrite Hurl; simpl.
  revert Hfail. unfold_story.
  destruct (pipeline_run url w') as [[e' | [| d ds]] w'']; simpl;
    intros; simplify_eq; by rewrite <- !app_assoc.
Qed.

Lemma process_story_url_converted id articles s post o url w' d :
  http_get (Item id) (world s) = (inr post, w') →
  body post = Some (JObj o) →
  o !! "url" = Some url →
  converted (pipeline_run url w').1 = inr d →
  process_story id articles s
  = (inr (articles ++ [d]),
     mkState (pipeline_run url w').2
       (log s ++ [Get (Item id); PipelineRun url])).
Proof.
  intros Hget Hbody Hurl Hfail. unfold_story.
  rewrite Hget, Hbody; simpl. rewrite Hurl; simpl.
  revert Hfail. unfold_story.
  destruct (pipeline_run url w') as [[e' | [| d' ds]] w'']; simpl;
    intros; simplify_eq; by rewrite <- !app_assoc.
Qed.

Lemma process_story_text id articles s post o text w' :
  http_get (Item id) (world s) = (inr post, w') →
  body post = Some (JObj o) →
  o !! "url" = None →
  o !! "text" = Some text →
  process_story id articles s
  = match o !! "title" with
    | Some title =>
        match Document_init text {[ "title" := title ]} with
        | None =>
            (inr (articles ++ [mkDocument text {[ "title" := title ]}]),
             mkState w' (log s ++ [Get (Item id); Print (TextIn id)]))
        | Some _ =>
            (inr articles,
             mkState w' (log s ++ [Get (Item id); Print (TextIn id);
                                   Print (CantDownload post)]))
        end
    | None =>
        (inr articles,
         mkState w' (log s ++ [Get (Item id); Print (TextIn id);
                               Print (CantDownload post)]))
    end.
Proof.
  intros Hget Hbody Hurl Htext. unfold_story.
  rewrite Hget, Hbody; simpl. rewrite Hurl; simpl. rewrite Htext; simpl.
  destruct (o !! "title") as [title |]; simpl.
  - destruct (Document_init text _); simpl; by rewrite <- !app_assoc.
  - by rewrite <- !app_assoc.
Qed.

(** Whatever happens, exactly one record request is made for the
    identifier, and a story that does not raise leaves the list as it was
    or appends one document. *)
Lemma process_story_shape id articles s :
  ∀ r s', process_story id articles s = (r, s') →
    requests (log s') = requests (log s) ++ [Item id] ∧
    item_requests (log s') = item_requests (log s) ++ [id] ∧
    match r with
    | inl _ => True
    | inr a => a = articles ∨ ∃ d, a = articles ++ [d]
    end.
Proof.
  intros r s'. unfold_story.
  repeat case_match; simplify_eq; simpl; intros; simplify_eq; simpl;
  rewrite ?requests_app, ?item_requests_app; simpl; rewrite ?app_nil_r;
  eauto.
Qed.

(** A record that decodes to a JSON object never makes the story raise:
    everything after the membership tests sits in a [try]. *)
Lemma process_story_object id articles s post o w' :
  http_get (Item id) (world s) = (inr post, w') →
  body post = Some (JObj o) →
  ∃ a s', process_story id articles s = (inr a, s').
Proof.
  intros Hget Hbody.
  destruct (o !! "url") as [url |] eqn:Hurl.
  - destruct (converted (pipeline_run url w').1) as [e | d] eqn:Hconv.
    + erewrite process_story_url_failed by done. eauto.
    + erewrite process_story_url_converted by done. eauto.
  - destruct (o !! "text") as [text |] eqn:Htext.
    + erewrite process_story_text by done. repeat case_match; eauto.
    + erewrite process_story_neither by done. eauto.
Qed.

(** The documents already collected play no part in what a story does. *)
Lemma process_story_acc id articles s :
  process_story id articles s
  = match process_story id [] s with
    | (inl e, s') => (inl e, s')
    | (inr new, s') => (inr (articles ++ new), s')
    end.
Proof.
  unfold_story. repeat case_match; simplify_eq; simpl; try done;
    by rewrite ?app_nil_r.
Qed.

(** ** The loop *)

Lemma for_each_cons id rest articles s :
  for_each (id :: rest) articles s
  = match process_story id articles s with
    | (inl e, s') => (inl e, s')
    | (inr a, s') => for_each rest a s'
    end.
Proof. reflexivity. Qed.

Lemma for_each_app ids1 ids2 articles s :
  for_each (ids1 ++ ids2) articles s
  = match for_each ids1 articles s with
    | (inl e, s') => (inl e, s')
    | (inr a, s') => for_each ids2 a s'
    end.
Proof.
  revert articles s. induction ids1 as [| id ids1 IH]; intros articles s.
  - reflexivity.
  - rewrite <- app_comm_cons, !for_each_cons.
    destruct (process_story id articles s) as [[e | a] s1]; [done | apply IH].
Qed.

Lemma for_each_acc ids articles s :
  for_each ids articles s
  = match for_each ids [] s with
    | (inl e, s') => (inl e, s')
    | (inr new, s') => (inr (articles ++ new), s')
    end.
Proof.
  revert articles s. induction ids as [| id ids IH]; intros articles s.
  - simpl. unfold mret, M_ret. by rewrite app_nil_r.
  - rewrite !for_each_cons, (process_story_acc id articles).
    destruct (process_story id [] s) as [[e | new1] s1]; [done |].
    rewrite (IH (articles ++ new1)), (IH ([] ++ new1)).
    destruct (for_each ids [] s1) as [[e | new2] s2]; [done |].
    by rewrite app_assoc.
Qed.

(** The record requests made by the loop are those of a prefix of its
    identifiers, one each and in order; the whole list when the loop
    returns, and then at most one new document per identifier. *)
Lemma for_each_shape ids articles s r s' :
  for_each ids articles s = (r, s') →
  ∃ seen,
    seen `prefix_of` ids ∧
    requests (log s') = requests (log s) ++ (Item <$> seen) ∧
    item_requests (log s') = item_requests (log s) ++ seen ∧
    match r with
    | inl _ => True
    | inr a =>
        seen = ids ∧ ∃ new, a = articles ++ new ∧ (length new ≤ length ids)%nat
    end.
Proof.
  revert articles s. induction ids as [| id ids IH]; intros articles s.
  - simpl. unfold mret, M_ret. intros [= <- <-]. exists [].
    rewrite !app_nil_r. repeat split; [done |]. exists []. by rewrite app_nil_r.
  - rewrite for_each_cons.
    destruct (process_story id articles s) as [[e | a] s1] eqn:Hstory;
      apply process_story_shape in Hstory as (Hreq & Hitem & Ha).
    + intros [= <- <-]. exists [id]. repeat split; try done.
      by apply prefix_cons, prefix_nil.
    + intros Hrest. apply IH in Hrest as (seen & Hpre & Hreq' & Hitem' & Hr).
      exists (id :: seen). split; [by apply prefix_cons |].
      rewrite Hreq', Hitem', Hreq, Hitem, <- !app_assoc. repeat split; try done.
      destruct r as [e | a']; [done |].
      destruct Hr as (-> & new & -> & Hlen). split; [done |].
      destruct Ha as [-> | [d ->]].
      * exists new. split; [done | simpl; lia].
      * exists (d :: new). rewrite <- app_assoc. split; [done | simpl; lia].
Qed.

(** When the record request of each of its identifiers answers with a
    JSON object, the loop returns. *)
Lemma for_each_objects ids articles s :
  (∀ id w, id ∈ ids → ∃ post o w',
      http_get (Item id) w = (inr post, w') ∧ body post = Some (JObj o)) →
  ∃ docs s', for_each ids articles s = (inr docs, s').
Proof.
  revert articles s.
  induction ids as [| id ids IH]; intros articles s Hobj.
  - simpl. unfold mret, M_ret. eauto.
  - rewrite for_each_cons.
    destruct (Hobj id (world s)) as (post & o & w' & Hget & Hbody);
      [by left |].
    destruct (process_story_object id articles s post o w' Hget Hbody)
      as (a & s1 & ->).
    apply IH. intros id' w Hin. apply Hobj. by right.
Qed.

(** ** The whole operation *)

(** Once the index request has answered with a list, [run] is the loop
    over the slice. *)
Lemma run_index top_k s r w' ids :
  http_get TopStories (world s) = (inr r, w') →
  body r = Some (JArr ids) →
  run top_k s
  = for_each (py_slice ids top_k) [] (mkState w' (log s ++ [Get TopStories])).
Proof.
  intros Hget Hbody.
  unfold run, requests_get, call, emit, lift, json_of.
  unfold mbind, mret, M_bind, M_ret, res_bind; simpl.
  by rewrite Hget, Hbody.
Qed.

(** Whenever [run] returns, it ran the loop over some slice. *)
Lemma run_returns top_k s docs s' :
  run top_k s = (inr docs, s') →
  ∃ r w' j ids,
    http_get TopStories (world s) = (inr r, w') ∧
    body r = Some j ∧ slice j top_k = inr ids ∧
    for_each ids [] (mkState w' (log s ++ [Get TopStories])) = (inr docs, s').
Proof.
  unfold run, requests_get, call, emit, lift, json_of.
  unfold mbind, mret, M_bind, M_ret, res_bind; simpl.
  destruct (http_get TopStories (world s)) as [[e | r] w'] eqn:Hget;
    [done |]; simpl.
  destruct (body r) as [j |] eqn:Hbody; [| done]; simpl.
  destruct (slice j top_k) as [e | ids] eqn:Hslice; [done |].
  intros Hloop. by exists r, w', j, ids.
Qed.

Lemma slice_length_le j top_k ids :
  0 ≤ top_k → slice j top_k = inr ids → (length ids ≤ Z.to_nat top_k)%nat.
Proof.
  intros Hk. destruct j; simpl; intros [= <-]; by apply py_slice_length_le.
Qed.

End Fetcher_facts.

(** ** What became of each story *)

Section Fetcher_tally.

Context {W : Type}.
Variable http_get : endpoint → W → res Response * W.
Variable pipeline_run : json → W → res (list Document) * W.
Variable Document_init : json → gmap string json → option exn.

#[local] Abbreviation process_story :=
  (process_story http_get pipeline_run Document_init).
#[local] Abbreviation for_each :=
  (for_each http_get pipeline_run Document_init).

(** The ways a story can end without raising, with the events each
    leaves after the record request: passed over in silence; downloaded;
    download failed; the record answers ["url" in ...] but has no url to
    read (a JSON list or string), which fails inside the [try] before the
    pipeline is invoked; built from its inline text; construction
    failed. *)
Lemma process_story_cases id articles s a s' :
  process_story id articles s = (inr a, s') →
  ∃ evs,
    log s' = log s ++ Get (Item id) :: evs ∧
    ((evs = [] ∧ a = articles) ∨
     (∃ url d, evs = [PipelineRun url] ∧ a = articles ++ [d]) ∨
     (∃ url post,
        evs = [PipelineRun url; Print (CantDownload post)] ∧ a = articles) ∨
     (∃ post, evs = [Print (CantDownload post)] ∧ a = articles) ∨
     (∃ d, evs = [Print (TextIn id)] ∧ a = articles ++ [d]) ∨
     (∃ post,
        evs = [Print (TextIn id); Print (CantDownload post)] ∧ a = articles)).
Proof.
  unfold_story.
  repeat case_match; simplify_eq; simpl; intros; simplify_eq; simpl;
    rewrite <- ?app_assoc; simpl; eexists; (split; [done |]); eauto 10.
Qed.

(** When the loop returns, every identifier is accounted for: its story
    gave a document, or was skipped with a notice, or was passed over in
    silence. *)
Lemma for_each_tally ids articles s a s' :
  for_each ids articles s = (inr a, s') →
  ∃ evs new,
    log s' = log s ++ evs ∧ a = articles ++ new ∧
    (evs = [] ∨ ∃ id rest, evs = Get (Item id) :: rest) ∧
    (length new + count is_skip_notice evs + omitted evs = length ids)%nat.
Proof.
  revert articles s. induction ids as [| id ids IH]; intros articles s.
  - simpl. unfold mret, M_ret. intros [= <- <-]. exists [], [].
    rewrite !app_nil_r. repeat split; try done. by left.
  - rewrite for_each_cons.
    destruct (process_story id articles s) as [[e | a1] s1] eqn:Hstory;
      [done |].
    apply process_story_cases in Hstory as (evs1 & Hlog1 & Hcase).
    intros Hrest.
    apply IH in Hrest as (evs2 & new2 & Hlog2 & -> & Hhead & Htally).
    rewrite Hlog2, Hlog1, <- app_assoc, <- app_comm_cons.
    unfold count in *.
    destruct Hcase as [[-> ->] | [(url & d & -> & ->) | [(url & post & -> & ->)
      | [(post & -> & ->) | [(d & -> & ->) | (post & -> & ->)]]]]].
    + exists (Get (Item id) :: evs2), new2.
      split; [done |]. split; [done |]. split; [right; eauto |].
      destruct Hhead as [-> | (id' & rest & ->)]; simpl in *; lia.
    + exists (Get (Item id) :: [PipelineRun url] ++ evs2), (d :: new2).
      split; [done |]. rewrite <- app_assoc. split; [done |].
      split; [right; eauto |]. simpl in *; lia.
    + exists (Get (Item id) :: [PipelineRun url; Print (CantDownload post)]
                ++ evs2), new2.
      split; [done |]. split; [done |].
      split; [right; eauto |]. simpl in *; lia.
    + exists (Get (Item id) :: [Print (CantDownload post)] ++ evs2), new2.
      split; [done |]. split; [done |].
      split; [right; eauto |]. simpl in *; lia.
    + exists (Get (Item id) :: [Print (TextIn id)] ++ evs2), (d :: new2).
      split; [done |]. rewrite <- app_assoc. split; [done |].
      split; [right; eauto |]. simpl in *; lia.
    + exists (Get (Item id) :: [Print (TextIn id); Print (CantDownload post)]
                ++ evs2), new2.
      split; [done |]. split; [done |].
      split; [right; eauto |]. simpl in *; lia.
Qed.

End Fetcher_tally.

(** ** The claims about [HackernewsNewestFetcher.run] *)

(** Where [run] stands when it reaches an identifier: the index request
    answered with a list and the identifiers before this one gave
    [docs1]. *)
Lemma run_at
    {W} (http_get : endpoint → W → res Response * W)
    (pipeline_run : json → W → res (list Document) * W)
    (Document_init : json → gmap string json → option exn)
    (top_k : Z) (s : state W) (r : Response) (w' : W) (ids pre : list json)
    (id : json) (rest : list json) (docs1 : list Document) (s1 : state W) :
  http_get TopStories (world s) = (inr r, w') →
  body r = Some (JArr ids) →
  py_slice ids top_k = pre ++ id :: rest →
  for_each http_get pipeline_run Document_init pre []
    (mkState w' (log s ++ [Get TopStories])) = (inr docs1, s1) →
  run http_get pipeline_run Document_init top_k s
  = match process_story http_get pipeline_run Document_init id docs1 s1 with
    | (inl e, s2) => (inl e, s2)
    | (inr a, s2) => for_each http_get pipeline_run Document_init rest a s2
    end.
Proof.
  intros Hget Hbody Hcut Hpre.
  rewrite (run_index _ _ _ _ _ _ _ _ Hget Hbody), Hcut, for_each_app, Hpre.
  apply for_each_cons.
Qed.

(** C1, as amended. [run] has reached the identifier [id]: the index
    request answered with a list and the identifiers before [id] gave
    the documents [docs1]. Then
    - when the record request for [id] raises, [run] raises the same
      exception and the remaining identifiers are not processed (the
      request is outside every [try]);
    - the same holds when the answer to the record request cannot be
      examined: a body that is not JSON raises [JSONDecodeError], and
      [null], a boolean or a number raises [TypeError] at the test
      ["url" in post.json()], which is outside every [try] as well;
    - when the download of a story with a url fails, and when building
      the document of a story with inline text fails, a skip notice is
      printed, the documents collected so far are kept as they are and
      [run] goes on with the remaining identifiers;
    - when the record request of every processed identifier answers with
      a JSON object, [run] returns a list of documents, whatever the
      sub-pipeline and the [Document] constructor do. *)
Theorem run_recovers_inside_try_only
    {W} (http_get : endpoint → W → res Response * W)
    (pipeline_run : json → W → res (list Document) * W)
    (Document_init : json → gmap string json → option exn)
    (top_k : Z) (s : state W) (r : Response) (w' : W) (ids pre : list json)
    (id : json) (rest : list json) (docs1 : list Document) (s1 : state W) :
  http_get TopStories (world s) = (inr r, w') →
  body r = Some (JArr ids) →
  py_slice ids top_k = pre ++ id :: rest →
  for_each http_get pipeline_run Document_init pre []
    (mkState w' (log s ++ [Get TopStories])) = (inr docs1, s1) →
  (∀ e w1,
     http_get (Item id) (world s1) = (inl e, w1) →
     run http_get pipeline_run Document_init top_k s
     = (inl e, mkState w1 (log s1 ++ [Get (Item id)])))
  ∧ (∀ post w1,
       http_get (Item id) (world s1) = (inr post, w1) →
       match body post with
       | None =>
           run http_get pipeline_run Document_init top_k s
           = (inl JSONDecodeError, mkState w1 (log s1 ++ [Get (Item id)]))
       | Some JNull | Some (JBool _) | Some (JNum _) =>
           run http_get pipeline_run Document_init top_k s
           = (inl TypeError, mkState w1 (log s1 ++ [Get (Item id)]))
       | Some (JStr _) | Some (JArr _) | Some (JObj _) => True
       end)
  ∧ (∀ post o url w1 e,
       http_get (Item id) (world s1) = (inr post, w1) →
       body post = Some (JObj o) →
       o !! "url" = Some url →
       converted (pipeline_run url w1).1 = inl e →
       run http_get pipeline_run Document_init top_k s
       = for_each http_get pipeline_run Document_init rest docs1
           (mkState (pipeline_run url w1).2
              (log s1 ++ [Get (Item id); PipelineRun url;
                          Print (CantDownload post)])))
  ∧ (∀ post o text w1,
       http_get (Item id) (world s1) = (inr post, w1) →
       body post = Some (JObj o) →
       o !! "url" = None →
       o !! "text" = Some text →
       (o !! "title" = None ∨
        ∃ title e, o !! "title" = Some title ∧
                   Document_init text {[ "title" := title ]} = Some e) →
       run http_get pipeline_run Document_init top_k s
       = for_each http_get pipeline_run Document_init rest docs1
           (mkState w1
              (log s1 ++ [Get (Item id); Print (TextIn id);
                          Print (CantDownload post)])))
  ∧ ((∀ id' w, id' ∈ py_slice ids top_k → ∃ post o w1,
        http_get (Item id') w = (inr post, w1) ∧ body post = Some (JObj o)) →
     ∃ docs s',
       run http_get pipeline_run Document_init top_k s = (inr docs, s')).
Proof.
  intros Hget Hbody Hcut Hpre.
  pose proof (run_at _ _ _ _ _ _ _ _ _ _ _ _ _ Hget Hbody Hcut Hpre) as Hat.
  split; [| split; [| split; [| split]]].
  - intros e w1 Hitem. rewrite Hat.
    by rewrite (process_story_get_raises _ _ _ _ _ _ _ _ Hitem).
  - intros post w1 Hitem. rewrite Hat. unfold_story. rewrite Hitem. simpl.
    by destruct (body post) as [[] |].
  - intros post o url w1 e Hitem Hobj Hurl Hfail. rewrite Hat.
    by rewrite (process_story_url_failed _ _ _ _ _ _ _ _ _ _ _
                  Hitem Hobj Hurl Hfail).
  - intros post o text w1 Hitem Hobj Hurl Htext Hfail. rewrite Hat.
    rewrite (process_story_text _ _ _ _ _ _ _ _ _ _ Hitem Hobj Hurl Htext).
    by destruct Hfail as [-> | (title & e & -> & ->)].
  - intros Hobj. rewrite (run_index _ _ _ _ _ _ _ _ Hget Hbody).
    by apply for_each_objects.
Qed.

(** C2, as amended. For [top_k = 0], and for a negative [top_k] whose
    magnitude is at least the index length, [run] performs the index
    request, no record request, and returns the empty list. *)
Theorem run_empty_slice
    {W} (http_get : endpoint → W → res Response * W)
    (pipeline_run : json → W → res (list Document) * W)
    (Document_init : json → gmap string json → option exn)
    (top_k : Z) (s : state W) (r : Response) (w' : W) (ids : list json) :
  top_k = 0 ∨ Z.of_nat (length ids) ≤ - top_k →
  http_get TopStories (world s) = (inr r, w') →
  body r = Some (JArr ids) →
  run http_get pipeline_run Document_init top_k s
  = (inr [], mkState w' (log s ++ [Get TopStories])).
Proof.
  intros Hk Hget Hbody.
  rewrite (run_index _ _ _ _ _ _ _ _ Hget Hbody).
  by rewrite py_slice_nil.
Qed.

(** What a negative [top_k] does in general: the loop runs over the index
    without its last [-top_k] identifiers. *)
Lemma run_negative_top_k
    {W} (http_get : endpoint → W → res Response * W)
    (pipeline_run : json → W → res (list Document) * W)
    (Document_init : json → gmap string json → option exn)
    (top_k : Z) (s : state W) (r : Response) (w' : W) (ids : list json) :
  top_k < 0 →
  http_get TopStories (world s) = (inr r, w') →
  body r = Some (JArr ids) →
  run http_get pipeline_run Document_init top_k s
  = for_each http_get pipeline_run Document_init
      (take (length ids - Z.to_nat (- top_k)) ids) []
      (mkState w' (log s ++ [Get TopStories])).
Proof.
  intros Hk Hget Hbody.
  rewrite (run_index _ _ _ _ _ _ _ _ Hget Hbody).
  by rewrite py_slice_negative.
Qed.

(** C3, as amended. For [top_k >= 0], whenever [run] returns, it returns
    at most [top_k] documents. *)
Theorem run_length_le_top_k
    {W} (http_get : endpoint → W → res Response * W)
    (pipeline_run : json → W → res (list Document) * W)
    (Document_init : json → gmap string json → option exn)
    (top_k : Z) (s : state W) (docs : list Document) (s' : state W) :
  0 ≤ top_k →
  run http_get pipeline_run Document_init top_k s = (inr docs, s') →
  Z.of_nat (length docs) ≤ top_k.
Proof.
  intros Hk Hrun.
  apply run_returns in Hrun as (r & w' & j & ids & _ & _ & Hslice & Hloop).
  apply for_each_shape in Hloop as (seen & _ & _ & _ & _ & new & -> & Hlen).
  pose proof (slice_length_le j top_k ids Hk Hslice). simpl. lia.
Qed.

(** C4. A story with a url whose sub-pipeline invocation raises, or gives
    no document, is skipped with a printed notice, the list of articles is
    left as it was, and the loop goes on with the remaining identifiers.
    In the scenario (index [[1, 2]], [top_k = 2], the first download
    fails) the result is exactly the second story's document. *)
Theorem run_skips_failed_download :
  (∀ W (http_get : endpoint → W → res Response * W)
     (pipeline_run : json → W → res (list Document) * W)
     (Document_init : json → gmap string json → option exn)
     (id : json) (rest : list json) (articles : list Document)
     (s : state W) (post : Response) (o : gmap string json) (url : json)
     (w' : W) (e : exn),
     http_get (Item id) (world s) = (inr post, w') →
     body post = Some (JObj o) →
     o !! "url" = Some url →
     converted (pipeline_run url w').1 = inl e →
     for_each http_get pipeline_run Document_init (id :: rest) articles s
     = for_each http_get pipeline_run Document_init rest articles
         (mkState (pipeline_run url w').2
            (log s ++ [Get (Item id); PipelineRun url;
                       Print (CantDownload post)])))
  ∧ (Demo.run2 2).1 = inr [Demo.good_page]
  ∧ prints (log (Demo.run2 2).2)
    = [CantDownload
         (Demo.ok (Demo.story [("title", JStr "bad");
                               ("url", JStr "http://bad")]))].
Proof.
  split; [| by vm_compute].
  intros W http_get pipeline_run Document_init id rest articles s post o url
    w' e Hget Hbody Hurl Hfail.
  rewrite for_each_cons.
  by rewrite (process_story_url_failed _ _ _ _ _ _ _ _ _ _ _
                Hget Hbody Hurl Hfail).
Qed.

(** C5. [run] has reached the identifier of a story with inline text and
    no url (the index request answered with a list, the identifiers
    before it gave [docs1]). When the record has a title and the
    [Document] constructor accepts the two values, exactly one document
    is appended, with the text as content and the title under ["title"]
    in its metadata: [run] goes on with the remaining identifiers from
    [docs1] followed by that document, and whatever it returns starts
    with them. When building the document fails (no title in the record,
    or the constructor raises) the story is skipped with a notice,
    nothing is raised by it and [run] goes on from [docs1]. *)
Theorem run_text_story
    {W} (http_get : endpoint → W → res Response * W)
    (pipeline_run : json → W → res (list Document) * W)
    (Document_init : json → gmap string json → option exn)
    (top_k : Z) (s : state W) (r : Response) (w' : W) (ids pre : list json)
    (id : json) (rest : list json) (docs1 : list Document) (s1 : state W)
    (post : Response) (o : gmap string json) (text : json) (w1 : W) :
  http_get TopStories (world s) = (inr r, w') →
  body r = Some (JArr ids) →
  py_slice ids top_k = pre ++ id :: rest →
  for_each http_get pipeline_run Document_init pre []
    (mkState w' (log s ++ [Get TopStories])) = (inr docs1, s1) →
  http_get (Item id) (world s1) = (inr post, w1) →
  body post = Some (JObj o) →
  o !! "url" = None →
  o !! "text" = Some text →
  (∀ title,
     o !! "title" = Some title →
     Document_init text {[ "title" := title ]} = None →
     ∃ d, content d = text ∧ meta d !! "title" = Some title ∧
       run http_get pipeline_run Document_init top_k s
       = for_each http_get pipeline_run Document_init rest (docs1 ++ [d])
           (mkState w1 (log s1 ++ [Get (Item id); Print (TextIn id)])) ∧
       ∀ docs s',
         run http_get pipeline_run Document_init top_k s = (inr docs, s') →
         ∃ later, docs = docs1 ++ d :: later ∧
                  (length later ≤ length rest)%nat)
  ∧ ((o !! "title" = None ∨
      ∃ title e, o !! "title" = Some title ∧
                 Document_init text {[ "title" := title ]} = Some e) →
     run http_get pipeline_run Document_init top_k s
     = for_each http_get pipeline_run Document_init rest docs1
         (mkState w1 (log s1 ++ [Get (Item id); Print (TextIn id);
                                 Print (CantDownload post)]))).
Proof.
  intros Hget Hbody Hcut Hpre Hitem Hobj Hurl Htext.
  rewrite (run_at _ _ _ _ _ _ _ _ _ _ _ _ _ Hget Hbody Hcut Hpre).
  rewrite (process_story_text _ _ _ _ _ _ _ _ _ _ Hitem Hobj Hurl Htext).
  split.
  - intros title -> ->. eexists (mkDocument text {[ "title" := title ]}).
    split; [done |]. split; [apply lookup_singleton_eq |].
    split; [done |]. intros docs s' Hrest.
    apply for_each_shape in Hrest as (_ & _ & _ & _ & _ & new & -> & Hlen).
    exists new. by rewrite <- app_assoc.
  - by intros [-> | (title & e & -> & ->)].
Qed.

(** C6, as amended. For [top_k] greater than the index length, whenever
    [run] returns, a record request was made for every identifier of the
    index, in order, and the number of documents returned equals the
    index length less the stories skipped with a notice and the stories
    passed over in silence; it is the index length when there are none
    of either. *)
Theorem run_large_top_k
    {W} (http_get : endpoint → W → res Response * W)
    (pipeline_run : json → W → res (list Document) * W)
    (Document_init : json → gmap string json → option exn)
    (top_k : Z) (s : state W) (r : Response) (w' : W) (ids : list json)
    (docs : list Document) (s' : state W) :
  Z.of_nat (length ids) < top_k →
  http_get TopStories (world s) = (inr r, w') →
  body r = Some (JArr ids) →
  run http_get pipeline_run Document_init top_k s = (inr docs, s') →
  item_requests (log s') = item_requests (log s) ++ ids ∧
  ∃ evs,
    log s' = log s ++ Get TopStories :: evs ∧
    (length docs + count is_skip_notice evs + omitted evs = length ids)%nat.
Proof.
  intros Hk Hget Hbody.
  rewrite (run_index _ _ _ _ _ _ _ _ Hget Hbody), py_slice_all by lia.
  intros Hloop. split.
  - apply for_each_shape in Hloop as (seen & _ & _ & Hitem & -> & _).
    simpl in *. rewrite item_requests_app in Hitem; simpl in Hitem.
    by rewrite app_nil_r in Hitem.
  - apply for_each_tally in Hloop as (evs & new & Hlog & -> & _ & Htally).
    exists evs. simpl in *. by rewrite Hlog, <- app_assoc.
Qed.

(** C7. A story whose record has neither a url nor a text is passed over
    in silence: the list of articles is unchanged, nothing is raised, the
    only event is the record request, and the loop goes on. *)
Theorem run_omits_story_without_url_and_text
    {W} (http_get : endpoint → W → res Response * W)
    (pipeline_run : json → W → res (list Document) * W)
    (Document_init : json → gmap string json → option exn)
    (id : json) (rest : list json) (articles : list Document) (s : state W)
    (post : Response) (o : gmap string json) (w' : W) :
  http_get (Item id) (world s) = (inr post, w') →
  body post = Some (JObj o) →
  o !! "url" = None →
  o !! "text" = None →
  process_story http_get pipeline_run Document_init id articles s
  = (inr articles, mkState w' (log s ++ [Get (Item id)])) ∧
  for_each http_get pipeline_run Document_init (id :: rest) articles s
  = for_each http_get pipeline_run Document_init rest articles
      (mkState w' (log s ++ [Get (Item id)])).
Proof.
  intros Hget Hbody Hurl Htext.
  rewrite for_each_cons.
  by rewrite (process_story_neither _ _ _ _ _ _ _ _ _ Hget Hbody Hurl Htext).
Qed.

(** C8. With a non-negative [top_k], the record requests are made for
    the first [top_k] identifiers of the index and for no other: they
    follow a prefix of these, all of them when [run] returns. The
    documents come in the order of the identifiers: cutting the processed
    identifiers in two, the result is what the first part yields followed
    by what the second part yields. In the scenario (index
    [[101, 102, 103]], [top_k = 2]) records 101 and 102 are requested and
    103 is not. *)
Theorem run_requests_first_top_k :
  (∀ W (http_get : endpoint → W → res Response * W)
     (pipeline_run : json → W → res (list Document) * W)
     (Document_init : json → gmap string json → option exn)
     (top_k : Z) (s : state W) (r : Response) (w' : W) (ids : list json)
     (result : res (list Document)) (s' : state W),
     0 ≤ top_k →
     http_get TopStories (world s) = (inr r, w') →
     body r = Some (JArr ids) →
     run http_get pipeline_run Document_init top_k s = (result, s') →
     (∃ seen,
        seen `prefix_of` take (Z.to_nat top_k) ids ∧
        item_requests (log s') = item_requests (log s) ++ seen ∧
        (∀ docs, result = inr docs → seen = take (Z.to_nat top_k) ids)) ∧
     (∀ docs ids1 ids2,
        result = inr docs →
        take (Z.to_nat top_k) ids = ids1 ++ ids2 →
        ∃ docs1 docs2 s1,
          for_each http_get pipeline_run Document_init ids1 []
            (mkState w' (log s ++ [Get TopStories])) = (inr docs1, s1) ∧
          for_each http_get pipeline_run Document_init ids2 [] s1
          = (inr docs2, s') ∧
          docs = docs1 ++ docs2))
  ∧ item_requests (log (Demo.run3 2).2) = [JNum 101; JNum 102]
  ∧ (Demo.run3 2).1 = inr [Demo.doc "a" "A"; Demo.doc "b" "B"].
Proof.
  split; [| by vm_compute].
  intros W http_get pipeline_run Document_init top_k s r w' ids result s'
    Hk Hget Hbody.
  rewrite (run_index _ _ _ _ _ _ _ _ Hget Hbody), py_slice_nonneg by done.
  intros Hloop. split.
  - apply for_each_shape in Hloop as (seen & Hpre & _ & Hitem & Hres).
    exists seen. split; [done |]. split.
    + simpl in Hitem. rewrite Hitem, item_requests_app. simpl.
      by rewrite app_nil_r.
    + intros docs ->. by destruct Hres.
  - intros docs ids1 ids2 -> Hcut. rewrite Hcut, for_each_app in Hloop.
    destruct (for_each _ _ _ ids1 [] _) as [[e | docs1] s1]; [done |].
    rewrite for_each_acc in Hloop.
    destruct (for_each _ _ _ ids2 [] s1) as [[e | docs2] s2] eqn:Hsecond;
      [done |].
    injection Hloop as <- <-. by exists docs1, docs2, s1.
Qed.

(** ** Witnesses and counterexamples *)

(** C1 as stated fails: the index request succeeds, the record request
    for story 1 raises, and [run] raises with it; the same happens when
    the upstream answers [null] for the item. *)
Lemma run_record_request_failure_surfaces :
  Demo.index1 = inr (Demo.ok (JArr [JNum 1])) ∧
  (Demo.run1 Demo.unreachable_story 1).1 = inl (External 503) ∧
  (Demo.run1 Demo.null_story 1).1 = inl TypeError.
Proof. by vm_compute. Qed.

Lemma run_recovers_inside_try_only_witness :
  converted (Demo.flaky_pipeline (JStr "http://bad") ()).1
  = inl (External 7) ∧
  Demo.run2 2
  = for_each (Demo.upstream Demo.index2 Demo.url_story) Demo.flaky_pipeline
      Demo.Document_accepts [JNum 2] []
      (mkState ()
         ([Get TopStories] ++
          [Get (Item (JNum 1)); PipelineRun (JStr "http://bad");
           Print (CantDownload
                    (Demo.ok (Demo.story [("title", JStr "bad");
                                          ("url", JStr "http://bad")])))])).
Proof.
  split; [reflexivity |].
  apply (proj1 (proj2 (proj2
           (run_recovers_inside_try_only
              (Demo.upstream Demo.index2 Demo.url_story) Demo.flaky_pipeline
              Demo.Document_accepts 2 Demo.s0
              (Demo.ok (JArr [JNum 1; JNum 2])) () [JNum 1; JNum 2]
              [] (JNum 1) [JNum 2] [] (mkState () [Get TopStories])
              ltac:(reflexivity) ltac:(reflexivity) ltac:(reflexivity)
              ltac:(reflexivity))))
           (Demo.ok (Demo.story [("title", JStr "bad");
                                 ("url", JStr "http://bad")]))
           (list_to_map [("title", JStr "bad"); ("url", JStr "http://bad")])
           (JStr "http://bad") () (External 7));
    [reflexivity | reflexivity | by vm_compute | reflexivity].
Defined.

(** C2 as stated fails for a negative [top_k]: with index
    [[101, 102, 103]] and [top_k = -1], two records are requested and two
    documents are returned. *)
Lemma run_negative_top_k_requests_records :
  -1 ≤ 0 ∧
  item_requests (log (Demo.run3 (-1)).2) = [JNum 101; JNum 102] ∧
  (Demo.run3 (-1)).1 = inr [Demo.doc "a" "A"; Demo.doc "b" "B"].
Proof. by vm_compute. Qed.

Lemma run_empty_slice_witness :
  (0 = 0 ∨ Z.of_nat (length [JNum 101; JNum 102; JNum 103]) ≤ - 0) ∧
  Demo.run3 0 = (inr [], mkState () [Get TopStories]).
Proof.
  split; [by left |].
  apply (run_empty_slice (Demo.upstream Demo.index3 Demo.text_story)
           Demo.no_pipeline Demo.Document_accepts 0 Demo.s0
           (Demo.ok (JArr [JNum 101; JNum 102; JNum 103])) ()
           [JNum 101; JNum 102; JNum 103]);
    [by left | reflexivity | reflexivity].
Defined.

(** C3 as stated fails for a negative [top_k]: the same call returns two
    documents, which is more than [-1]. *)
Lemma run_negative_top_k_length :
  match (Demo.run3 (-1)).1 with
  | inr docs => ¬ (Z.of_nat (length docs) ≤ -1)
  | inl _ => False
  end.
Proof. vm_compute. intros H. by apply H. Qed.

Lemma run_length_le_top_k_witness :
  0 ≤ 2 ∧
  Z.of_nat (length [Demo.doc "a" "A"; Demo.doc "b" "B"]) ≤ 2.
Proof.
  split; [lia |].
  apply (run_length_le_top_k (Demo.upstream Demo.index3 Demo.text_story)
           Demo.no_pipeline Demo.Document_accepts 2 Demo.s0 _
           (Demo.run3 2).2); [lia | by vm_compute].
Defined.

Lemma run_skips_failed_download_witness :
  converted (Demo.flaky_pipeline (JStr "http://bad") ()).1
  = inl (External 7) ∧
  for_each (Demo.upstream Demo.index2 Demo.url_story) Demo.flaky_pipeline
    Demo.Document_accepts [JNum 1; JNum 2] []
    (mkState () [Get TopStories])
  = for_each (Demo.upstream Demo.index2 Demo.url_story) Demo.flaky_pipeline
      Demo.Document_accepts [JNum 2] []
      (mkState ()
         ([Get TopStories] ++
          [Get (Item (JNum 1)); PipelineRun (JStr "http://bad");
           Print (CantDownload
                    (Demo.ok (Demo.story [("title", JStr "bad");
                                          ("url", JStr "http://bad")])))])).
Proof.
  split; [reflexivity |].
  apply (proj1 run_skips_failed_download unit
           (Demo.upstream Demo.index2 Demo.url_story) Demo.flaky_pipeline
           Demo.Document_accepts (JNum 1) [JNum 2] []
           (mkState () [Get TopStories])
           (Demo.ok (Demo.story [("title", JStr "bad");
                                 ("url", JStr "http://bad")]))
           (list_to_map [("title", JStr "bad"); ("url", JStr "http://bad")])
           (JStr "http://bad") () (External 7));
    [reflexivity | reflexivity | by vm_compute | reflexivity].
Defined.

Lemma run_text_story_witness :
  ∃ d, content d = JStr "b" ∧ meta d !! "title" = Some (JStr "B") ∧
    Demo.run3 2
    = for_each (Demo.upstream Demo.index3 Demo.text_story) Demo.no_pipeline
        Demo.Document_accepts [] ([Demo.doc "a" "A"] ++ [d])
        (mkState ()
           (log (Demo.run3 1).2 ++
            [Get (Item (JNum 102)); Print (TextIn (JNum 102))])) ∧
    ∀ docs s', Demo.run3 2 = (inr docs, s') →
      ∃ later, docs = [Demo.doc "a" "A"] ++ d :: later ∧
               (length later ≤ length (@nil json))%nat.
Proof.
  apply (proj1
           (run_text_story
              (Demo.upstream Demo.index3 Demo.text_story) Demo.no_pipeline
              Demo.Document_accepts 2 Demo.s0
              (Demo.ok (JArr [JNum 101; JNum 102; JNum 103])) ()
              [JNum 101; JNum 102; JNum 103]
              [JNum 101] (JNum 102) [] [Demo.doc "a" "A"] (Demo.run3 1).2
              (Demo.ok (Demo.story [("title", JStr "B"); ("text", JStr "b")]))
              (list_to_map [("title", JStr "B"); ("text", JStr "b")])
              (JStr "b") ()
              ltac:(reflexivity) ltac:(reflexivity) ltac:(reflexivity)
              ltac:(by vm_compute) ltac:(reflexivity) ltac:(reflexivity)
              ltac:(by vm_compute) ltac:(by vm_compute))
           (JStr "B")); [by vm_compute | reflexivity].
Defined.

(** C6 as stated fails: with index [[1]], [top_k = 2] and a story that
    has neither url nor text, nothing is returned although the index has
    one identifier. *)
Lemma run_large_top_k_can_return_fewer :
  Z.of_nat (length [JNum 1]) < 2 ∧
  match (Demo.run1 Demo.poll_story 2).1 with
  | inr docs => length docs ≠ length [JNum 1]
  | inl _ => False
  end.
Proof. by vm_compute. Qed.

Lemma run_large_top_k_witness :
  Z.of_nat (length [JNum 1; JNum 2]) < 5 ∧
  item_requests (log (Demo.run2 5).2)
  = item_requests (log Demo.s0) ++ [JNum 1; JNum 2] ∧
  ∃ evs,
    log (Demo.run2 5).2 = log Demo.s0 ++ Get TopStories :: evs ∧
    (length [Demo.good_page] + count is_skip_notice evs + omitted evs
     = length [JNum 1; JNum 2])%nat.
Proof.
  split; [by vm_compute |].
  apply (run_large_top_k (Demo.upstream Demo.index2 Demo.url_story)
           Demo.flaky_pipeline Demo.Document_accepts 5 Demo.s0
           (Demo.ok (JArr [JNum 1; JNum 2])) ()
           [JNum 1; JNum 2]);
    [by vm_compute | reflexivity | reflexivity | by vm_compute].
Defined.

Lemma run_omits_story_without_url_and_text_witness :
  process_story (Demo.upstream Demo.index1 Demo.poll_story)
    Demo.no_pipeline Demo.Document_accepts (JNum 1) [] Demo.s0
  = (inr [], mkState () (log Demo.s0 ++ [Get (Item (JNum 1))])) ∧
  for_each (Demo.upstream Demo.index1 Demo.poll_story)
    Demo.no_pipeline Demo.Document_accepts [JNum 1; JNum 1] [] Demo.s0
  = for_each (Demo.upstream Demo.index1 Demo.poll_story)
      Demo.no_pipeline Demo.Document_accepts [JNum 1] []
      (mkState () (log Demo.s0 ++ [Get (Item (JNum 1))])).
Proof.
  apply (run_omits_story_without_url_and_text
           (Demo.upstream Demo.index1 Demo.poll_story)
           Demo.no_pipeline Demo.Document_accepts (JNum 1) [JNum 1] []
           Demo.s0 (Demo.ok (Demo.story [("title", JStr "poll")]))
           (list_to_map [("title", JStr "poll")]) ());
    [reflexivity | reflexivity | by vm_compute | by vm_compute].
Defined.

Lemma run_requests_first_top_k_witness :
  0 ≤ 2 ∧
  ∃ seen,
    seen `prefix_of` take (Z.to_nat 2) [JNum 101; JNum 102; JNum 103] ∧
    item_requests (log (Demo.run3 2).2)
    = item_requests (log Demo.s0) ++ seen ∧
    (∀ docs, (Demo.run3 2).1 = inr docs →
             seen = take (Z.to_nat 2) [JNum 101; JNum 102; JNum 103]).
Proof.
  split; [lia |].
  apply (proj1 run_requests_first_top_k unit
           (Demo.upstream Demo.index3 Demo.text_story)
           Demo.no_pipeline Demo.Document_accepts 2 Demo.s0
           (Demo.ok (JArr [JNum 101; JNum 102; JNum 103])) ()
           [JNum 101; JNum 102; JNum 103]
           (Demo.run3 2).1 (Demo.run3 2).2);
    [lia | reflexivity | reflexivity | by vm_compute].
Defined.

(** ** [TimedComponent.run] *)

Section Timed_facts.

Context {W Kwargs Result : Type}.
Variable clock : W → float * W.

(** C9. [TimedComponent.run] gives what the wrapped component's [run]
    gives on the same keyword arguments (called once the clock has been
    read): the same value when it returns, the same exception when it
    raises. All the wrapper adds when the component returns is a second
    clock reading and one printed line. *)
Theorem TimedComponent_run_result
    (self : TimedComponent W Kwargs Result) (kwargs : Kwargs) (s : state W) :
  let s0 := (time_time clock s).2 in
  (TimedComponent_run clock self kwargs s).1
  = (component_run (component self) kwargs s0).1 ∧
  TimedComponent_run clock self kwargs s
  = match component_run (component self) kwargs s0 with
    | (inl e, s1) => (inl e, s1)
    | (inr result, s1) =>
        (inr result,
         mkState (clock (world s1)).2
           (log s1 ++
            [Print (Took (name self)
                      (PrimFloat.sub (clock (world s1)).1
                                     (clock (world s)).1))]))
    end.
Proof.
  unfold TimedComponent_run, time_time, print, call, emit.
  unfold mbind, mret, M_bind, M_ret; simpl.
  destruct (clock (world s)) as [start w0]; simpl.
  destruct (component_run (component self) kwargs _) as [[e | result] s1];
    simpl; [done |].
  by destruct (clock (world s1)) as [stop w1].
Qed.

(** The wrapper is named after the class of what it wraps. *)
Lemma TimedComponent_init_name (c : Component W Kwargs Result) :
  name (TimedComponent_init c) = class_name c ∧
  component (TimedComponent_init c) = c.
Proof. done. Qed.

End Timed_facts.

(** ** [get_env_var] *)

Module Helper_facts.
Import Helper.

Lemma append_cons c (s t : string) : String c s +:+ t = String c (s +:+ t).
Proof. reflexivity. Qed.

Lemma append_empty (s : string) : EmptyString +:+ s = s.
Proof. reflexivity. Qed.

Lemma lstrip_spec p s : lstripped p s (lstrip p s).
Proof.
  induction s as [| c s IH]; simpl.
  - exists EmptyString. by repeat split.
  - destruct (p c) eqn:Hc.
    + destruct IH as (pre & Hs & Hpre & Hfirst).
      exists (String c pre). rewrite append_cons, <- Hs. simpl.
      by rewrite Hc, Hpre.
    + exists EmptyString. rewrite append_empty. repeat split.
      simpl. by intros ? [= <-].
Qed.

Lemma rstrip_spec p s : rstripped p s (rstrip p s).
Proof.
  induction s as [| c s IH]; simpl.
  - exists EmptyString. by repeat split.
  - destruct IH as (post & Hs & Hpost & Hlast).
    destruct (rstrip p s) as [| a r] eqn:Hr.
    + rewrite append_empty in Hs. subst post. destruct (p c) eqn:Hc.
      * exists (String c s). rewrite append_empty. simpl.
        by rewrite Hc, Hpost.
      * exists s. rewrite append_cons, append_empty. repeat split; [done |].
        simpl. by intros ? [= <-].
    + exists post. rewrite append_cons, <- Hs. repeat split; [done |].
      intros c' Hc'. by apply Hlast.
Qed.

Lemma rstrip_comma_last s : last_char (rstrip is_comma s) ≠ Some ","%char.
Proof.
  destruct (rstrip_spec is_comma s) as (_ & _ & _ & Hlast).
  intros Hc. apply Hlast in Hc. unfold is_comma in Hc.
  by rewrite bool_decide_eq_false in Hc.
Qed.

(** C10. [get_env_var] returns [None] exactly when the variable is unset.
    When it is set to [value], the result is [value] without its leading
    and trailing whitespace and then without the commas at its end, and
    it does not end with a comma. *)
Theorem get_env_var_spec (environ : gmap string string) (env_variable : string) :
  (get_env_var environ env_variable = None ↔ environ !! env_variable = None)
  ∧ (∀ value, environ !! env_variable = Some value →
       ∃ left mid r,
         get_env_var environ env_variable = Some r ∧
         lstripped is_space value left ∧
         rstripped is_space left mid ∧
         rstripped is_comma mid r ∧
         last_char r ≠ Some ","%char).
Proof.
  unfold get_env_var, os_getenv. split.
  - by destruct (environ !! env_variable).
  - intros value ->.
    exists (lstrip is_space value), (strip is_space value),
      (rstrip is_comma (strip is_space value)).
    split; [done |]. split; [apply lstrip_spec |].
    split; [apply rstrip_spec |]. split; [apply rstrip_spec |].
    apply rstrip_comma_last.
Qed.

Lemma get_env_var_spec_witness :
  ({[ "API_BASE_URL" := " http://localhost:8080/v1,, " ]} : gmap string string)
    !! "API_BASE_URL" = Some " http://localhost:8080/v1,, " ∧
  ∃ left mid r,
    get_env_var {[ "API_BASE_URL" := " http://localhost:8080/v1,, " ]}
      "API_BASE_URL" = Some r ∧
    lstripped is_space " http://localhost:8080/v1,, " left ∧
    rstripped is_space left mid ∧
    rstripped is_comma mid r ∧
    last_char r ≠ Some ","%char.
Proof.
  split; [by vm_compute |].
  apply (proj2 (get_env_var_spec
                  {[ "API_BASE_URL" := " http://localhost:8080/v1,, " ]}
                  "API_BASE_URL")).
  by vm_compute.
Defined.

Example get_env_var_example :
  get_env_var {[ "API_BASE_URL" := " http://localhost:8080/v1,, " ]}
    "API_BASE_URL" = Some "http://localhost:8080/v1" ∧
  get_env_var {[ "API_BASE_URL" := "a ," ]} "API_BASE_URL" = Some "a " ∧
  get_env_var {[ "API_BASE_URL" := "" ]} "API_BASE_URL" = Some "" ∧
  get_env_var {[ "API_BASE_URL" := "x" ]} "MODEL_PHI" = None.
Proof. by vm_compute. Qed.

End Helper_facts.

(** * Further properties *)

(** ** More about [HackernewsNewestFetcher.run] *)

Lemma count_app p l1 l2 : count p (l1 ++ l2) = (count p l1 + count p l2)%nat.
Proof. unfold count. by rewrite List.filter_app, length_app. Qed.

Ltac unfold_run :=
  unfold run, requests_get, call, emit, lift, json_of;
  unfold mbind, mret, M_bind, M_ret, res_bind; simpl.

Section Fetcher_more.

Context {W : Type}.
Variable http_get : endpoint → W → res Response * W.
Variable pipeline_run : json → W → res (list Document) * W.
Variable Document_init : json → gmap string json → option exn.

#[local] Abbreviation process_story :=
  (process_story http_get pipeline_run Document_init).
#[local] Abbreviation for_each :=
  (for_each http_get pipeline_run Document_init).
#[local] Abbreviation run := (run http_get pipeline_run Document_init).

(** The events of one story: one record request; a document or a skip
    notice, never both; and a document only after a pipeline invocation
    or a "text in" line. *)
Lemma process_story_events id articles s r s' :
  process_story id articles s = (r, s') →
  ∃ evs,
    log s' = log s ++ evs ∧
    count is_item_request evs = 1%nat ∧
    match r with
    | inl _ => True
    | inr a =>
        ∃ new, a = articles ++ new ∧
          (length new + count is_skip_notice evs ≤ 1)%nat ∧
          (length new ≤ count is_pipeline_run evs + count is_text_notice evs)%nat
    end.
Proof.
  unfold_story.
  repeat case_match; simplify_eq; simpl; intros; simplify_eq; simpl;
    rewrite <- ?app_assoc; simpl.
  all: (eexists; split; [reflexivity |]; split; [reflexivity |]; try done).
  all: first [ exists []; split; [by rewrite app_nil_r |]
             | eexists [_]; split; [reflexivity |] ];
    unfold count; simpl; lia.
Qed.

Lemma for_each_events ids articles s r s' :
  for_each ids articles s = (r, s') →
  ∃ evs,
    log s' = log s ++ evs ∧
    (count is_item_request evs ≤ length ids)%nat ∧
    match r with
    | inl _ => True
    | inr a =>
        ∃ new, a = articles ++ new ∧
          (length new + count is_skip_notice evs
           ≤ count is_item_request evs)%nat ∧
          (length new ≤ count is_pipeline_run evs + count is_text_notice evs)%nat
    end.
Proof.
  revert articles s. induction ids as [| id ids IH]; intros articles s.
  - simpl. unfold mret, M_ret. intros [= <- <-]. exists [].
    rewrite app_nil_r. split; [done |]. split; [done |]. exists [].
    rewrite app_nil_r. split; [done |]. split; unfold count; simpl; lia.
  - rewrite for_each_cons.
    destruct (process_story id articles s) as [[e | a] s1] eqn:Hstory;
      apply process_story_events in Hstory as (evs1 & Hlog1 & Hone & Ha).
    + intros [= <- <-]. exists evs1. split; [done |].
      split; [simpl; lia | done].
    + intros Hrest. apply IH in Hrest as (evs2 & Hlog2 & Hle & Hr).
      exists (evs1 ++ evs2). rewrite Hlog2, Hlog1, <- app_assoc, !count_app.
      split; [done |]. split; [simpl; lia |].
      destruct r as [e | a']; [done |].
      destruct Ha as (new1 & -> & Hskip1 & Hfrom1).
      destruct Hr as (new2 & -> & Hskip2 & Hfrom2).
      exists (new1 ++ new2). rewrite <- app_assoc, length_app.
      split; [done |]. split; lia.
Qed.

(** When the loop raises, it does so at one identifier: the identifiers
    before it were processed without raising, and the exception, with
    the state it leaves, is that of this story. *)
Lemma for_each_raises ids articles s e s' :
  for_each ids articles s = (inl e, s') →
  ∃ pre id rest docs1 s1,
    ids = pre ++ id :: rest ∧
    for_each pre articles s = (inr docs1, s1) ∧
    process_story id docs1 s1 = (inl e, s').
Proof.
  revert articles s. induction ids as [| id ids IH]; intros articles s.
  - simpl. by unfold mret, M_ret.
  - rewrite for_each_cons.
    destruct (process_story id articles s) as [[e1 | a] s1] eqn:Hstory.
    + intros [= -> ->]. by exists [], id, ids, articles, s.
    + intros Hrest.
      apply IH in Hrest as (pre & id' & rest & docs1 & s2 & -> & Hpre & Hraise).
      exists (id :: pre), id', rest, docs1, s2.
      by rewrite for_each_cons, Hstory.
Qed.

(** X1. When the index request raises, [run] raises the same exception;
    when its body is not JSON, [run] raises [JSONDecodeError]; when the
    JSON is null, a boolean or a number, [run] raises [TypeError]; when
    it is a JSON object, [run] raises as well (which exception Python
    raises for a slice subscript of a dict depends on its version, so
    none is named). In each case the index request is the only thing
    [run] did. *)
Theorem run_index_failure top_k s :
  match http_get TopStories (world s) with
  | (inl e, w') =>
      run top_k s = (inl e, mkState w' (log s ++ [Get TopStories]))
  | (inr r, w') =>
      match body r with
      | None =>
          run top_k s
          = (inl JSONDecodeError, mkState w' (log s ++ [Get TopStories]))
      | Some (JArr _) | Some (JStr _) => True
      | Some (JObj _) =>
          ∃ e, run top_k s = (inl e, mkState w' (log s ++ [Get TopStories]))
      | Some JNull | Some (JBool _) | Some (JNum _) =>
          run top_k s = (inl TypeError, mkState w' (log s ++ [Get TopStories]))
      end
  end.
Proof.
  unfold_run. destruct (http_get TopStories (world s)) as [[e | r] w'];
    simpl; [done |].
  destruct (body r) as [[] |]; simpl; eauto.
Qed.

(** X2. A story with a url whose download succeeds: the first document
    the pipeline returned is appended, any further document of the same
    page is dropped, and nothing is printed. *)
Theorem run_keeps_first_document id articles s post o url w' d ds w'' :
  http_get (Item id) (world s) = (inr post, w') →
  body post = Some (JObj o) →
  o !! "url" = Some url →
  pipeline_run url w' = (inr (d :: ds), w'') →
  process_story id articles s
  = (inr (articles ++ [d]),
     mkState w'' (log s ++ [Get (Item id); PipelineRun url])).
Proof.
  intros Hget Hbody Hurl Hpipe.
  rewrite (process_story_url_converted _ _ _ id articles s post o url w' d)
    by (by rewrite ?Hpipe).
  by rewrite Hpipe.
Qed.

(** X3. Whatever happens, [run] makes the index request exactly once and
    first, and every request after it is a record request. The records
    requested are those of the identifiers processed, one request each
    and in order: none when the index request or the slicing fails; the
    whole slice when [run] returns; and when a story raises, the
    identifiers of the slice up to and including that story, the ones
    after it being left alone. *)
Theorem run_request_discipline top_k s :
  ∃ seen,
    requests (log (run top_k s).2)
    = requests (log s) ++ TopStories :: (Item <$> seen) ∧
    item_requests (log (run top_k s).2) = item_requests (log s) ++ seen ∧
    match http_get TopStories (world s) with
    | (inl _, _) => seen = []
    | (inr r, w') =>
        match body r with
        | None => seen = []
        | Some j =>
            match slice j top_k with
            | inl _ => seen = []
            | inr ids =>
                match (run top_k s).1 with
                | inr _ => seen = ids
                | inl e =>
                    ∃ pre id rest docs1 s1,
                      ids = pre ++ id :: rest ∧ seen = pre ++ [id] ∧
                      for_each pre []
                        (mkState w' (log s ++ [Get TopStories]))
                      = (inr docs1, s1) ∧
                      process_story id docs1 s1 = (inl e, (run top_k s).2)
                end
            end
        end
    end.
Proof.
  destruct (http_get TopStories (world s)) as [[e | r] w'] eqn:Hget.
  { exists []. unfold_run. rewrite Hget. simpl.
    by rewrite requests_app, item_requests_app. }
  destruct (body r) as [j |] eqn:Hbody.
  2: { exists []. unfold_run. rewrite Hget. simpl. rewrite Hbody. simpl.
       by rewrite requests_app, item_requests_app. }
  assert (run top_k s
          = match slice j top_k with
            | inl e => (inl e, mkState w' (log s ++ [Get TopStories]))
            | inr ids =>
                for_each ids [] (mkState w' (log s ++ [Get TopStories]))
            end) as ->.
  { unfold_run. rewrite Hget. simpl. rewrite Hbody. simpl.
    by destruct (slice j top_k). }
  destruct (slice j top_k) as [e | ids].
  { exists []. simpl. by rewrite requests_app, item_requests_app. }
  destruct (for_each ids [] (mkState w' (log s ++ [Get TopStories])))
    as [[e | docs] s'] eqn:Hloop; simpl.
  - apply for_each_raises in Hloop
      as (pre & id & rest & docs1 & s1 & -> & Hpre & Hraise).
    exists (pre ++ [id]).
    pose proof (for_each_shape _ _ _ _ _ _ _ _ Hpre)
      as (seen & _ & Hreq & Hitem & -> & _).
    pose proof (process_story_shape _ _ _ _ _ _ _ _ Hraise)
      as (Hreq' & Hitem' & _).
    simpl in Hreq, Hitem.
    rewrite Hreq', Hitem', Hreq, Hitem, requests_app, item_requests_app.
    simpl. rewrite fmap_app, app_nil_r. simpl. rewrite <- !app_assoc.
    repeat split; try done. by exists pre, id, rest, docs1, s1.
  - apply for_each_shape in Hloop as (seen & _ & Hreq & Hitem & -> & _).
    exists ids. simpl in Hreq, Hitem.
    rewrite Hreq, Hitem, requests_app, item_requests_app.
    simpl. by rewrite <- app_assoc, app_nil_r.
Qed.

(** X4. When [run] returns, the log has only grown, and among the new
    events: every story gave at most one of a document and a skip notice
    (documents plus skip notices do not exceed the record requests), and
    every document was preceded by a pipeline invocation or a "text in"
    line of its own. *)
Theorem run_accounting top_k s docs s' :
  run top_k s = (inr docs, s') →
  ∃ evs,
    log s' = log s ++ evs ∧
    (length docs + count is_skip_notice evs ≤ count is_item_request evs)%nat ∧
    (length docs ≤ count is_pipeline_run evs + count is_text_notice evs)%nat.
Proof.
  intros Hrun.
  apply run_returns in Hrun as (r & w' & j & ids & _ & _ & _ & Hloop).
  apply for_each_events in Hloop as (evs & Hlog & _ & new & -> & Hskip & Hfrom).
  exists (Get TopStories :: evs). simpl in *.
  rewrite Hlog, <- app_assoc. split; [done |].
  change (Get TopStories :: evs) with ([Get TopStories] ++ evs).
  rewrite !count_app. unfold count at 1 3 5 7. simpl. lia.
Qed.

(** X5. Asking for more never changes what was obtained for less: from
    the same state, the run with the larger [top_k] is the run with the
    smaller one followed by the loop over the further identifiers, so the
    documents of the smaller run are a prefix of those of the larger. *)
Theorem run_top_k_monotone k1 k2 s r w' ids docs1 s1 :
  0 ≤ k1 ≤ k2 →
  http_get TopStories (world s) = (inr r, w') →
  body r = Some (JArr ids) →
  run k1 s = (inr docs1, s1) →
  run k2 s
  = for_each (drop (Z.to_nat k1) (take (Z.to_nat k2) ids)) docs1 s1 ∧
  ∀ docs2 s2, run k2 s = (inr docs2, s2) → docs1 `prefix_of` docs2.
Proof.
  intros Hk Hget Hbody.
  rewrite !(run_index _ _ _ _ _ _ _ _ Hget Hbody), !py_slice_nonneg by lia.
  intros Hsmall.
  set (rest := drop (Z.to_nat k1) (take (Z.to_nat k2) ids)).
  assert (take (Z.to_nat k2) ids = take (Z.to_nat k1) ids ++ rest) as Hcut.
  { rewrite <- (take_drop (Z.to_nat k1) (take (Z.to_nat k2) ids)) at 1.
    f_equal. rewrite take_take. f_equal. lia. }
  rewrite Hcut, for_each_app, Hsmall. split; [done |].
  intros docs2 s2 Hrest.
  apply for_each_shape in Hrest as (_ & _ & _ & _ & _ & new & -> & _).
  by apply prefix_app_r.
Qed.

End Fetcher_more.

(** ** Wrapping a [TimedComponent] again *)

Section Timed_more.

Context {W Kwargs Result : Type}.
Variable clock : W → float * W.

Lemma TimedComponent_run_unfold
    (self : TimedComponent W Kwargs Result) (kwargs : Kwargs) (s : state W) :
  TimedComponent_run clock self kwargs s
  = match component_run (component self) kwargs
            (mkState (clock (world s)).2 (log s)) with
    | (inl e, s1) => (inl e, s1)
    | (inr result, s1) =>
        (inr result,
         mkState (clock (world s1)).2
           (log s1 ++
            [Print (Took (name self)
                      (PrimFloat.sub (clock (world s1)).1
                                     (clock (world s)).1))]))
    end.
Proof.
  unfold TimedComponent_run, time_time, print, call, emit.
  unfold mbind, mret, M_bind, M_ret; simpl.
  destruct (clock (world s)) as [start w0]; simpl.
  destruct (component_run (component self) kwargs _) as [[e | result] s1];
    simpl; [done |].
  by destruct (clock (world s1)) as [stop w1].
Qed.

(** X6. A timed component wrapped a second time still gives the result
    of the innermost [run]. When that returns, two lines are printed
    after whatever the component logged: first the inner wrapper's, under
    the component's class name, then the outer wrapper's, under the name
    ["TimedComponent"]; the outer duration spans the inner one (its clock
    readings are the first and the last of the four). When the component
    raises, neither line is printed. *)
Theorem TimedComponent_nested
    (c : Component W Kwargs Result) (kwargs : Kwargs) (s : state W) :
  let inner := TimedComponent_init c in
  let outer := TimedComponent_init (TimedComponent_as_component clock inner) in
  let t0 := clock (world s) in
  let t1 := clock t0.2 in
  TimedComponent_run clock outer kwargs s
  = match component_run c kwargs (mkState t1.2 (log s)) with
    | (inl e, s1) => (inl e, s1)
    | (inr result, s1) =>
        let t2 := clock (world s1) in
        let t3 := clock t2.2 in
        (inr result,
         mkState t3.2
           (log s1 ++
            [Print (Took (class_name c) (PrimFloat.sub t2.1 t1.1));
             Print (Took "TimedComponent" (PrimFloat.sub t3.1 t0.1))]))
    end.
Proof.
  intros inner outer t0 t1. subst inner outer.
  rewrite TimedComponent_run_unfold. simpl.
  rewrite TimedComponent_run_unfold. simpl. subst t0 t1.
  destruct (component_run c kwargs _) as [[e | result] s1]; [done |].
  simpl. by rewrite <- app_assoc.
Qed.

End Timed_more.

(** ** [Haystack_Logs] *)

Module Logs_facts.
Import Logs.

Ltac unfold_logs :=
  unfold Haystack_Logs, basicConfig, haystack_setLevel, set_content_tracing,
    enable_tracing, filterwarnings_ignore.

(** Reduce the projections only: the colour table stays folded. *)
Ltac simpl_logs :=
  cbn [root_handlers root_level haystack_level is_content_tracing_enabled
       actual_tracer filters].

Lemma Haystack_Logs_seq_snoc levels level c :
  Haystack_Logs_seq (levels ++ [level]) c
  = Haystack_Logs level (Haystack_Logs_seq levels c).
Proof. unfold Haystack_Logs_seq. by rewrite foldl_app. Qed.

Lemma Haystack_Logs_seq_cons level levels c :
  Haystack_Logs_seq (level :: levels) c
  = Haystack_Logs_seq levels (Haystack_Logs level c).
Proof. reflexivity. Qed.

(** One call leaves a configured root logger alone, and configures an
    unconfigured one. *)
Lemma Haystack_Logs_root_configured level c :
  root_handlers c ≠ [] →
  root_handlers (Haystack_Logs level c) = root_handlers c ∧
  root_level (Haystack_Logs level c) = root_level c.
Proof.
  intros Hconf. unfold_logs.
  case_decide; simpl_logs; by destruct (root_handlers c) eqn:Hh.
Qed.

Lemma Haystack_Logs_root_fresh level c :
  root_handlers c = [] →
  root_handlers (Haystack_Logs level c)
  = [if decide (level = "warning")
     then "%(levelname)s - %(name)s -  %(message)s" else BASIC_FORMAT] ∧
  root_level (Haystack_Logs level c)
  = (if decide (level = "warning") then WARNING else ERROR).
Proof.
  intros Hfresh. unfold_logs.
  case_decide; simpl_logs; by rewrite Hfresh.
Qed.

Lemma Haystack_Logs_keeps_configured_root_aux levels c :
  root_handlers c ≠ [] →
  root_handlers (Haystack_Logs_seq levels c) = root_handlers c ∧
  root_level (Haystack_Logs_seq levels c) = root_level c.
Proof.
  revert c. induction levels as [| level levels IH]; intros c Hconf; [done |].
  rewrite Haystack_Logs_seq_cons.
  destruct (Haystack_Logs_root_configured level c Hconf) as [Hh Hl].
  destruct (IH (Haystack_Logs level c)) as [Hh' Hl']; [by rewrite Hh |].
  by rewrite Hh', Hl', Hh, Hl.
Qed.

(** X7. In a sequence of calls, the last one decides the level of the
    ["haystack"] logger and whether content tracing is on: [DEBUG] and on
    for exactly the string ["warning"], [ERROR] and off for every other
    string (["debug"] and ["WARNING"] included). *)
Theorem Haystack_Logs_last_call_wins levels level c :
  haystack_level (Haystack_Logs_seq (levels ++ [level]) c)
  = (if decide (level = "warning") then DEBUG else ERROR) ∧
  is_content_tracing_enabled (Haystack_Logs_seq (levels ++ [level]) c)
  = bool_decide (level = "warning").
Proof.
  rewrite Haystack_Logs_seq_snoc. unfold_logs.
  case_decide; simpl_logs.
  - by rewrite bool_decide_eq_true_2 by done.
  - rewrite bool_decide_eq_false_2 by done.
    by destruct (root_handlers (Haystack_Logs_seq levels c)).
Qed.

(** X8. A root logger that already has a handler is never touched:
    neither its handlers nor its level change, whatever the calls. *)
Theorem Haystack_Logs_keeps_configured_root levels c :
  root_handlers c ≠ [] →
  root_handlers (Haystack_Logs_seq levels c) = root_handlers c ∧
  root_level (Haystack_Logs_seq levels c) = root_level c.
Proof. apply Haystack_Logs_keeps_configured_root_aux. Qed.

(** X9. Starting without a handler on the root logger, the first call
    fixes the root logger for good: one handler with that call's format,
    and that call's level ([WARNING] for ["warning"], [ERROR] otherwise);
    later calls with another level do not change them. *)
Theorem Haystack_Logs_first_call_wins level levels c :
  root_handlers c = [] →
  root_handlers (Haystack_Logs_seq (level :: levels) c)
  = [if decide (level = "warning")
     then "%(levelname)s - %(name)s -  %(message)s" else BASIC_FORMAT] ∧
  root_level (Haystack_Logs_seq (level :: levels) c)
  = (if decide (level = "warning") then WARNING else ERROR).
Proof.
  intros Hfresh. rewrite Haystack_Logs_seq_cons.
  destruct (Haystack_Logs_root_fresh level c Hfresh) as [Hh Hl].
  destruct (Haystack_Logs_keeps_configured_root_aux levels
              (Haystack_Logs level c)) as [Hh' Hl']; [by rewrite Hh |].
  by rewrite Hh', Hl', Hh, Hl.
Qed.

Lemma Haystack_Logs_tracer level c :
  actual_tracer (Haystack_Logs level c)
  = (if decide (level = "warning")
     then LoggingTracer tags_color_strings else actual_tracer c).
Proof.
  unfold_logs. case_decide; simpl_logs; [done |].
  by destruct (root_handlers c).
Qed.

Lemma Haystack_Logs_filters level c :
  filters (Haystack_Logs level c)
  = (if decide (level = "warning")
     then filters c else IgnoreAll :: remove_first IgnoreAll (filters c)).
Proof.
  unfold_logs. case_decide; simpl_logs; by destruct (root_handlers c).
Qed.

(** X10. The function never takes the tracer away: a call with another
    level only switches content tracing off. Once one call of a sequence
    was made with ["warning"], the logging tracer is still installed at
    the end. *)
Theorem Haystack_Logs_tracer_stays levels c :
  "warning" ∈ levels →
  actual_tracer (Haystack_Logs_seq levels c) = LoggingTracer tags_color_strings.
Proof.
  induction levels as [| level levels IH] using rev_ind; intros Hin.
  - by apply elem_of_nil in Hin.
  - rewrite Haystack_Logs_seq_snoc, Haystack_Logs_tracer.
    case_decide as Hlevel; [done |].
    apply IH. apply elem_of_app in Hin as [Hin | Hin]; [done |].
    apply list_elem_of_singleton in Hin. congruence.
Qed.

(** X11. Warnings stay suppressed: once one call of a sequence was made
    with a level other than ["warning"], the filter that ignores every
    warning is at the head of the filter list at the end, also when later
    calls use ["warning"]. *)
Theorem Haystack_Logs_warnings_stay_ignored levels c :
  (∃ level, level ∈ levels ∧ level ≠ "warning") →
  all_warnings_ignored (Haystack_Logs_seq levels c).
Proof.
  unfold all_warnings_ignored.
  induction levels as [| level levels IH] using rev_ind;
    intros (quiet & Hin & Hquiet).
  - by apply elem_of_nil in Hin.
  - rewrite Haystack_Logs_seq_snoc, Haystack_Logs_filters.
    case_decide as Hlevel; [| done].
    apply IH. exists quiet. split; [| done].
    apply elem_of_app in Hin as [Hin | Hin]; [done |].
    apply list_elem_of_singleton in Hin. congruence.
Qed.

(** X12. Calling the function twice with the same level is the same as
    calling it once. *)
Theorem Haystack_Logs_idempotent level c :
  Haystack_Logs level (Haystack_Logs level c) = Haystack_Logs level c.
Proof.
  destruct c as [handlers rl hl ct tr fs]. unfold Haystack_Logs.
  destruct (decide (level = "warning")) as [Hw | Hw]; destruct handlers;
    cbv [basicConfig haystack_setLevel set_content_tracing enable_tracing
         filterwarnings_ignore root_handlers root_level haystack_level
         is_content_tracing_enabled actual_tracer filters from_option id];
    try reflexivity.
  all: cbn [remove_first]; by destruct (decide (IgnoreAll = IgnoreAll)).
Qed.

End Logs_facts.

(** ** [load_env] *)

Module Dotenv_facts.
Import Dotenv.

(** What a variable is worth after [load_dotenv]: its old value when it
    had one, otherwise the value the file gives it, if any. *)
Lemma load_dotenv_lookup (values : gmap string (option string))
    (environ : gmap string string) (k : string) :
  load_dotenv values environ !! k
  = match environ !! k with
    | Some v => Some v
    | None => values !! k ≫= id
    end.
Proof.
  unfold load_dotenv. revert k.
  apply (map_fold_weak_ind
           (λ env (m : gmap string (option string)),
              ∀ k, env !! k = match environ !! k with
                              | Some v => Some v
                              | None => m !! k ≫= id
                              end)).
  - intros k. rewrite lookup_empty. by destruct (environ !! k).
  - intros i x m env Hfresh IH k.
    pose proof (IH i) as Hi. rewrite Hfresh in Hi. simpl in Hi.
    destruct (decide (i = k)) as [-> | Hne].
    + rewrite lookup_insert_eq. simpl.
      case_decide as Hset.
      * rewrite Hi in *. destruct (environ !! k); [done | by destruct Hset].
      * destruct (environ !! k) as [v |] eqn:Hk.
        { rewrite Hi in Hset. by destruct Hset. }
        destruct x as [x |]; [by rewrite lookup_insert_eq |].
        by rewrite Hi.
    + rewrite lookup_insert_ne by done.
      case_decide as Hset; [apply IH |].
      destruct x as [x |]; [| apply IH].
      rewrite lookup_insert_ne by done. apply IH.
Qed.

(** X13. [load_env] raises [FileNotFoundError] exactly when no [.env]
    file was found; when one was found, every variable that was set keeps
    its value (the file never overrides the environment), and a variable
    that was not set takes the value the file gives it, if it gives
    one. *)
Theorem load_env_spec env_path dotenv_values (environ : gmap string string) :
  (load_env env_path dotenv_values environ
   = inl (FileNotFoundError "Could not find .env file") ↔ env_path = "") ∧
  (∀ environ', load_env env_path dotenv_values environ = inr environ' →
     ∀ k, environ' !! k
          = match environ !! k with
            | Some v => Some v
            | None => dotenv_values env_path environ !! k ≫= id
            end).
Proof.
  unfold load_env. split.
  - by case_decide.
  - intros environ'. case_decide; [done |]. intros [= <-] k.
    apply load_dotenv_lookup.
Qed.

(** X14. Loading the file and then reading a variable with
    [get_env_var]: a variable that was already set reads as before; one
    that was not reads as the cleaned-up value of the file. *)
Theorem load_env_then_get_env_var env_path dotenv_values
    (environ environ' : gmap string string) (name : string) :
  load_env env_path dotenv_values environ = inr environ' →
  Helper.get_env_var environ' name
  = match Helper.get_env_var environ name with
    | Some v => Some v
    | None =>
        Helper.get_env_var (omap id (dotenv_values env_path environ)) name
    end.
Proof.
  unfold load_env. case_decide; [done |]. intros [= <-].
  unfold Helper.get_env_var, Helper.os_getenv.
  rewrite load_dotenv_lookup, lookup_omap.
  by destruct (environ !! name).
Qed.

(** X15. Calling [load_env] a second time changes nothing, as long as
    the file reads the same in the environment the first call left. *)
Theorem load_env_twice env_path dotenv_values
    (environ environ' : gmap string string) :
  load_env env_path dotenv_values environ = inr environ' →
  dotenv_values env_path environ' = dotenv_values env_path environ →
  load_env env_path dotenv_values environ' = inr environ'.
Proof.
  unfold load_env. case_decide; [done |]. intros [= <-] Hsame.
  f_equal. rewrite Hsame. apply map_eq. intros k.
  rewrite !load_dotenv_lookup.
  by destruct (environ !! k), (dotenv_values env_path environ !! k ≫= id).
Qed.

End Dotenv_facts.

(** ** More about [get_env_var] *)

Module Helper_more.
Import Helper.

Lemma lstrip_id p s :
  (∀ c, first_char s = Some c → p c = false) → lstrip p s = s.
Proof.
  destruct s as [| c s]; [done |]. intros Hfirst. simpl.
  by rewrite (Hfirst c).
Qed.

Lemma rstrip_id p s :
  (∀ c, last_char s = Some c → p c = false) → rstrip p s = s.
Proof.
  induction s as [| c s IH]; [done |]. intros Hlast.
  destruct s as [| a s].
  - simpl. by rewrite (Hlast c).
  - change (rstrip p (String c (String a s)))
      with (match rstrip p (String a s) with
            | EmptyString => if p c then EmptyString else String c EmptyString
            | r => String c r
            end).
    rewrite IH; [done |]. intros c' Hc'. by apply Hlast.
Qed.

Lemma lstrip_all p s : all_chars p s = true → lstrip p s = EmptyString.
Proof.
  induction s as [| c s IH]; [done |]. simpl.
  intros [Hc Hs]%andb_prop. rewrite Hc. by apply IH.
Qed.

Lemma rstrip_first p s c :
  first_char (rstrip p s) = Some c → first_char s = Some c.
Proof.
  destruct s as [| a s]; [done |]. simpl.
  destruct (rstrip p s); [destruct (p a) |]; done.
Qed.

Lemma lstrip_first p s c :
  first_char (lstrip p s) = Some c → p c = false.
Proof.
  induction s as [| a s IH]; [done |]. simpl.
  destruct (p a) eqn:Ha; [done |]. simpl. by intros [= <-].
Qed.

(** X22. A value that neither starts nor ends with whitespace and does
    not end with a comma comes back unchanged. *)
Theorem get_env_var_clean_value (environ : gmap string string) name value :
  environ !! name = Some value →
  (∀ c, first_char value = Some c → is_space c = false) →
  (∀ c, last_char value = Some c → is_space c = false ∧ is_comma c = false) →
  get_env_var environ name = Some value.
Proof.
  intros Hset Hfirst Hlast. unfold get_env_var, os_getenv, strip.
  rewrite Hset, lstrip_id by done.
  rewrite (rstrip_id is_space value)
    by (intros c Hc; by destruct (Hlast c Hc)).
  rewrite (rstrip_id is_comma value)
    by (intros c Hc; by destruct (Hlast c Hc)).
  done.
Qed.

(** X23. A variable that is set but holds only whitespace reads as the
    empty string, not as [None]. *)
Theorem get_env_var_blank (environ : gmap string string) name value :
  environ !! name = Some value →
  all_chars is_space value = true →
  get_env_var environ name = Some EmptyString.
Proof.
  intros Hset Hblank. unfold get_env_var, os_getenv, strip.
  by rewrite Hset, lstrip_all.
Qed.

(** X24. The value returned never starts with whitespace. *)
Theorem get_env_var_no_leading_space (environ : gmap string string) name r c :
  get_env_var environ name = Some r →
  first_char r = Some c →
  is_space c = false.
Proof.
  unfold get_env_var, os_getenv, strip.
  destruct (environ !! name) as [value |]; [| done]. intros [= <-] Hc.
  apply rstrip_first, rstrip_first in Hc. by apply lstrip_first in Hc.
Qed.

End Helper_more.

(** ** [MiniPHILLM] and [MiniPHIChat] *)

Module LLM_facts.
Import LLM.

Lemma getenv_cleaned_get_env_var (environ : gmap string string) name :
  getenv_cleaned environ name
  = match Helper.get_env_var environ name with
    | Some v => inr v
    | None => inl AttributeError
    end.
Proof.
  unfold getenv_cleaned, Helper.get_env_var.
  by destruct (Helper.os_getenv environ name).
Qed.

Lemma or_empty_default (kwargs : option (gmap string json)) :
  or_empty kwargs = default ∅ kwargs.
Proof.
  destruct kwargs as [m |]; [| done]. simpl.
  destruct (Nat.eqb_spec (size m) 0) as [Hsize | _]; [| done].
  symmetry. by apply map_size_empty_inv.
Qed.

Section Wrappers_facts.

Variable OpenAIGenerator_init : generator → option exn.
Variable OpenAIChatGenerator_init : generator → option exn.

(** X16. Both constructors fail with [AttributeError] exactly when
    [API_BASE_URL] or [MODEL_PHI] is not set (where [get_env_var] would
    have answered [None]). *)
Theorem MiniPHI_init_unset (environ : gmap string string)
    (kwargs : option (gmap string json)) :
  (MiniPHILLM_init OpenAIGenerator_init environ = inl AttributeError
   ↔ environ !! "API_BASE_URL" = None ∨ environ !! "MODEL_PHI" = None) ∧
  (MiniPHIChat_init OpenAIChatGenerator_init kwargs environ = inl AttributeError
   ↔ environ !! "API_BASE_URL" = None ∨ environ !! "MODEL_PHI" = None).
Proof.
  unfold MiniPHILLM_init, MiniPHIChat_init, getenv_cleaned, Helper.os_getenv.
  destruct (environ !! "API_BASE_URL") as [url |],
    (environ !! "MODEL_PHI") as [name |]; simpl;
    try destruct (OpenAIGenerator_init _);
    try destruct (OpenAIChatGenerator_init _);
    (split;
       (split;
        [ intros ?; try done; (by left) || (by right) | by intros [? | ?] ])).
Qed.

(** X17. When [MiniPHILLM()] succeeds, the generator was built with the
    two variables as [get_env_var] reads them: neither ends with a comma
    nor starts with whitespace; the timeout is 100 and the key is the
    placeholder. *)
Theorem MiniPHILLM_init_config (environ : gmap string string) llm :
  MiniPHILLM_init OpenAIGenerator_init environ = inr llm →
  Helper.get_env_var environ "API_BASE_URL" = Some (api_base_url llm) ∧
  Helper.get_env_var environ "MODEL_PHI" = Some (model llm) ∧
  Helper.last_char (api_base_url llm) ≠ Some ","%char ∧
  Helper.last_char (model llm) ≠ Some ","%char ∧
  timeout llm = 100 ∧ api_key llm = "not-needed" ∧
  generation_kwargs llm = None.
Proof.
  unfold MiniPHILLM_init. rewrite !getenv_cleaned_get_env_var.
  unfold Helper.get_env_var, Helper.os_getenv.
  destruct (environ !! "API_BASE_URL") as [url |]; [| done].
  destruct (environ !! "MODEL_PHI") as [name |]; [| done].
  case_match; [done |]. intros [= <-]. simpl.
  repeat split; apply Helper_facts.rstrip_comma_last.
Qed.

(** X18. [MiniPHIChat(generation_kwargs)] builds its generator from the
    same two variables, cleaned the same way, and hands the generation
    arguments over unchanged. *)
Theorem MiniPHIChat_init_config (environ : gmap string string) kwargs chat :
  MiniPHIChat_init OpenAIChatGenerator_init kwargs environ = inr chat →
  Helper.get_env_var environ "API_BASE_URL" = Some (api_base_url chat) ∧
  Helper.get_env_var environ "MODEL_PHI" = Some (model chat) ∧
  generation_kwargs chat = kwargs ∧
  ∀ llm, MiniPHILLM_init OpenAIGenerator_init environ = inr llm →
         api_base_url llm = api_base_url chat ∧ model llm = model chat.
Proof.
  unfold MiniPHIChat_init, MiniPHILLM_init.
  rewrite !getenv_cleaned_get_env_var.
  unfold Helper.get_env_var, Helper.os_getenv.
  destruct (environ !! "API_BASE_URL") as [url |]; [| done].
  destruct (environ !! "MODEL_PHI") as [name |]; [| done].
  case_match; [done |]. intros [= <-]. simpl.
  repeat split; try done; case_match; simplify_eq; done.
Qed.

(** X21. After a successful [load_env], the constructor does not fail
    for a missing variable as soon as each of the two variables is set in
    the environment or given a value by the file. *)
Theorem load_env_then_MiniPHILLM_init env_path dotenv_values
    (environ environ' : gmap string string) :
  Dotenv.load_env env_path dotenv_values environ = inr environ' →
  (∀ name, name = "API_BASE_URL" ∨ name = "MODEL_PHI" →
     is_Some (environ !! name) ∨
     ∃ v, dotenv_values env_path environ !! name = Some (Some v)) →
  MiniPHILLM_init OpenAIGenerator_init environ' ≠ inl AttributeError.
Proof.
  intros Hload Hvars Hfail.
  assert (∀ name, name = "API_BASE_URL" ∨ name = "MODEL_PHI" →
                  is_Some (environ' !! name)) as Hset.
  { intros name Hname. revert Hload. unfold Dotenv.load_env.
    case_decide; [done |]. intros [= <-].
    rewrite Dotenv_facts.load_dotenv_lookup.
    destruct (Hvars name Hname) as [[v Hv] | [v Hv]]; rewrite ?Hv; [by eexists |].
    destruct (environ !! name); by eexists. }
  revert Hfail.
  unfold MiniPHILLM_init, getenv_cleaned, Helper.os_getenv.
  destruct (Hset "API_BASE_URL") as [url ->]; [by left |].
  destruct (Hset "MODEL_PHI") as [name ->]; [by right |].
  by case_match.
Qed.

End Wrappers_facts.

Section Run_facts.

Context {W : Type}.
Variable llm_run :
  generator → string → option string → gmap string json →
  W → res (gmap string json) * W.

(** X19. When the generator returns, [MiniPHILLM.run] returns a dict
    with exactly the two keys ["replies"] and ["meta"], holding what the
    generator returned under them; whatever else the generator returned
    is dropped. When one of the two is missing it raises [KeyError]. The
    world is as the generator left it. [MiniPHIChat.run] does the same. *)
Theorem MiniPHI_run_result llm prompt system_prompt kwargs w result w' :
  llm_run llm prompt system_prompt (or_empty kwargs) w = (inr result, w') →
  MiniPHIChat_run llm_run llm prompt system_prompt kwargs w
  = MiniPHILLM_run llm_run llm prompt system_prompt kwargs w ∧
  (MiniPHILLM_run llm_run llm prompt system_prompt kwargs w).2 = w' ∧
  match result !! "replies", result !! "meta" with
  | Some replies, Some meta =>
      ∃ out,
        (MiniPHILLM_run llm_run llm prompt system_prompt kwargs w).1 = inr out ∧
        out !! "replies" = Some replies ∧ out !! "meta" = Some meta ∧
        dom out = {[ "replies"; "meta" ]}
  | _, _ =>
      (MiniPHILLM_run llm_run llm prompt system_prompt kwargs w).1
      = inl KeyError
  end.
Proof.
  intros Hrun. split; [done |].
  unfold MiniPHILLM_run, result_item, mbind, mret, res_bind, res_ret.
  rewrite Hrun. cbn [fst snd]. split; [done |].
  destruct (result !! "replies") as [replies |]; [| done].
  destruct (result !! "meta") as [meta |]; [| done].
  eexists. split; [reflexivity |].
  split; [apply lookup_insert_eq |].
  split; [by rewrite lookup_insert_ne, lookup_singleton_eq |].
  by rewrite dom_insert_L, dom_singleton_L.
Qed.

(** X20. No generation arguments and empty generation arguments are the
    same call: the generator always receives a dict, the empty one in
    both cases, and the given one otherwise. An exception of the
    generator passes through. *)
Theorem MiniPHI_run_kwargs llm prompt system_prompt kwargs w :
  MiniPHILLM_run llm_run llm prompt system_prompt None w
  = MiniPHILLM_run llm_run llm prompt system_prompt (Some ∅) w ∧
  match llm_run llm prompt system_prompt (default ∅ kwargs) w with
  | (inl e, w') =>
      MiniPHILLM_run llm_run llm prompt system_prompt kwargs w = (inl e, w')
  | (inr result, w') =>
      (MiniPHILLM_run llm_run llm prompt system_prompt kwargs w).2 = w'
  end.
Proof.
  split; [done |].
  unfold MiniPHILLM_run. rewrite or_empty_default.
  by destruct (llm_run llm prompt system_prompt (default ∅ kwargs) w)
    as [[e | result] w'].
Qed.

End Run_facts.

End LLM_facts.

(** ** Witnesses for the further properties *)

Lemma run_keeps_first_document_witness :
  Scenario.two_pages (JStr "http://good") ()
  = (inr [Scenario.page1; Scenario.page2], ()) ∧
  process_story (Demo.upstream Demo.index2 Demo.url_story) Scenario.two_pages
    Demo.Document_accepts (JNum 2) [] Demo.s0
  = (inr ([] ++ [Scenario.page1]),
     mkState () (log Demo.s0 ++
                 [Get (Item (JNum 2)); PipelineRun (JStr "http://good")])).
Proof.
  split; [reflexivity |].
  apply (run_keeps_first_document
           (Demo.upstream Demo.index2 Demo.url_story) Scenario.two_pages
           Demo.Document_accepts (JNum 2) [] Demo.s0
           (Demo.ok (Demo.story [("title", JStr "good");
                                 ("url", JStr "http://good")]))
           (list_to_map [("title", JStr "good"); ("url", JStr "http://good")])
           (JStr "http://good") () Scenario.page1 [Scenario.page2] ());
    [reflexivity | reflexivity | by vm_compute | reflexivity].
Defined.

Lemma run_accounting_witness :
  ∃ evs,
    log (Demo.run2 2).2 = log Demo.s0 ++ evs ∧
    (length [Demo.good_page] + count is_skip_notice evs
     ≤ count is_item_request evs)%nat ∧
    (length [Demo.good_page]
     ≤ count is_pipeline_run evs + count is_text_notice evs)%nat.
Proof.
  apply (run_accounting (Demo.upstream Demo.index2 Demo.url_story)
           Demo.flaky_pipeline Demo.Document_accepts 2 Demo.s0
           [Demo.good_page] (Demo.run2 2).2).
  by vm_compute.
Defined.

Lemma run_top_k_monotone_witness :
  0 ≤ 1 ≤ 2 ∧
  ∀ docs2 s2, Demo.run3 2 = (inr docs2, s2) →
              [Demo.doc "a" "A"] `prefix_of` docs2.
Proof.
  split; [lia |].
  apply (run_top_k_monotone (Demo.upstream Demo.index3 Demo.text_story)
           Demo.no_pipeline Demo.Document_accepts 1 2 Demo.s0
           (Demo.ok (JArr [JNum 101; JNum 102; JNum 103])) ()
           [JNum 101; JNum 102; JNum 103] [Demo.doc "a" "A"]
           (Demo.run3 1).2);
    [lia | reflexivity | reflexivity | by vm_compute].
Defined.

Lemma Haystack_Logs_keeps_configured_root_witness :
  Logs.root_handlers Scenario.configured ≠ [] ∧
  Logs.root_handlers
    (Logs.Haystack_Logs_seq ["error"; "warning"] Scenario.configured)
  = ["%(message)s"] ∧
  Logs.root_level
    (Logs.Haystack_Logs_seq ["error"; "warning"] Scenario.configured)
  = 20.
Proof.
  split; [done |].
  apply (Logs_facts.Haystack_Logs_keeps_configured_root
           ["error"; "warning"] Scenario.configured).
  done.
Defined.

Lemma Haystack_Logs_first_call_wins_witness :
  Logs.root_handlers Logs.fresh = [] ∧
  Logs.root_handlers (Logs.Haystack_Logs_seq ["error"; "warning"] Logs.fresh)
  = [Logs.BASIC_FORMAT] ∧
  Logs.root_level (Logs.Haystack_Logs_seq ["error"; "warning"] Logs.fresh)
  = Logs.ERROR.
Proof.
  split; [reflexivity |].
  apply (Logs_facts.Haystack_Logs_first_call_wins "error" ["warning"]
           Logs.fresh).
  reflexivity.
Defined.

Lemma Haystack_Logs_tracer_stays_witness :
  Logs.actual_tracer (Logs.Haystack_Logs_seq ["warning"; "error"] Logs.fresh)
  = Logs.LoggingTracer Logs.tags_color_strings.
Proof.
  apply (Logs_facts.Haystack_Logs_tracer_stays ["warning"; "error"] Logs.fresh).
  apply elem_of_cons. by left.
Defined.

Lemma Haystack_Logs_warnings_stay_ignored_witness :
  Logs.all_warnings_ignored
    (Logs.Haystack_Logs_seq ["error"; "warning"] Logs.fresh).
Proof.
  apply (Logs_facts.Haystack_Logs_warnings_stay_ignored
           ["error"; "warning"] Logs.fresh).
  exists "error". split; [apply elem_of_cons; by left | done].
Defined.

Lemma load_env_spec_witness :
  Dotenv.load_env ".env" Scenario.dotenv_values Scenario.environ
  = inr (Dotenv.load_dotenv Scenario.dotenv_file Scenario.environ) ∧
  Dotenv.load_dotenv Scenario.dotenv_file Scenario.environ !! "API_BASE_URL"
  = match Scenario.environ !! "API_BASE_URL" with
    | Some v => Some v
    | None =>
        Scenario.dotenv_values ".env" Scenario.environ !! "API_BASE_URL" ≫= id
    end.
Proof.
  split; [reflexivity |].
  apply (proj2 (Dotenv_facts.load_env_spec ".env" Scenario.dotenv_values
                  Scenario.environ)
           (Dotenv.load_dotenv Scenario.dotenv_file Scenario.environ)).
  reflexivity.
Defined.

Lemma load_env_twice_witness :
  Dotenv.load_env ".env" Scenario.dotenv_values
    (Dotenv.load_dotenv Scenario.dotenv_file Scenario.environ)
  = inr (Dotenv.load_dotenv Scenario.dotenv_file Scenario.environ).
Proof.
  apply (Dotenv_facts.load_env_twice ".env" Scenario.dotenv_values
           Scenario.environ); reflexivity.
Defined.

Lemma load_env_then_get_env_var_witness :
  Helper.get_env_var
    (Dotenv.load_dotenv Scenario.dotenv_file Scenario.environ) "API_BASE_URL"
  = match Helper.get_env_var Scenario.environ "API_BASE_URL" with
    | Some v => Some v
    | None =>
        Helper.get_env_var
          (omap id (Scenario.dotenv_values ".env" Scenario.environ))
          "API_BASE_URL"
    end.
Proof.
  apply (Dotenv_facts.load_env_then_get_env_var ".env" Scenario.dotenv_values
           Scenario.environ).
  reflexivity.
Defined.

Lemma MiniPHILLM_init_config_witness :
  Helper.get_env_var Scenario.both_set "API_BASE_URL"
  = Some (LLM.api_base_url Scenario.llm) ∧
  Helper.get_env_var Scenario.both_set "MODEL_PHI"
  = Some (LLM.model Scenario.llm) ∧
  Helper.last_char (LLM.api_base_url Scenario.llm) ≠ Some ","%char ∧
  Helper.last_char (LLM.model Scenario.llm) ≠ Some ","%char ∧
  LLM.timeout Scenario.llm = 100 ∧
  LLM.api_key Scenario.llm = "not-needed" ∧
  LLM.generation_kwargs Scenario.llm = None.
Proof.
  apply (LLM_facts.MiniPHILLM_init_config Scenario.accepts Scenario.both_set
           Scenario.llm).
  by vm_compute.
Defined.

Lemma MiniPHIChat_init_config_witness :
  Helper.get_env_var Scenario.both_set "API_BASE_URL"
  = Some (LLM.api_base_url Scenario.llm) ∧
  Helper.get_env_var Scenario.both_set "MODEL_PHI"
  = Some (LLM.model Scenario.llm) ∧
  LLM.generation_kwargs Scenario.llm = None ∧
  ∀ llm, LLM.MiniPHILLM_init Scenario.accepts Scenario.both_set = inr llm →
         LLM.api_base_url llm = LLM.api_base_url Scenario.llm ∧
         LLM.model llm = LLM.model Scenario.llm.
Proof.
  apply (LLM_facts.MiniPHIChat_init_config Scenario.accepts Scenario.accepts
           Scenario.both_set None Scenario.llm).
  by vm_compute.
Defined.

Lemma MiniPHI_run_result_witness :
  (LLM.MiniPHILLM_run Scenario.llm_run Scenario.llm "hi" None None ()).2 = () ∧
  match Scenario.answer !! "replies", Scenario.answer !! "meta" with
  | Some replies, Some meta =>
      ∃ out,
        (LLM.MiniPHILLM_run Scenario.llm_run Scenario.llm "hi" None None ()).1
        = inr out ∧
        out !! "replies" = Some replies ∧ out !! "meta" = Some meta ∧
        dom out = {[ "replies"; "meta" ]}
  | _, _ =>
      (LLM.MiniPHILLM_run Scenario.llm_run Scenario.llm "hi" None None ()).1
      = inl KeyError
  end.
Proof.
  apply (LLM_facts.MiniPHI_run_result Scenario.llm_run Scenario.llm "hi"
           None None () Scenario.answer ()).
  reflexivity.
Defined.

Lemma load_env_then_MiniPHILLM_init_witness :
  LLM.MiniPHILLM_init Scenario.accepts
    (Dotenv.load_dotenv Scenario.dotenv_file Scenario.environ)
  ≠ inl LLM.AttributeError.
Proof.
  apply (LLM_facts.load_env_then_MiniPHILLM_init Scenario.accepts ".env"
           Scenario.dotenv_values Scenario.environ).
  - reflexivity.
  - intros name [-> | ->].
    + right. exists "http://localhost:8080/v1, ". by vm_compute.
    + left. exists "phi-4". by vm_compute.
Defined.

Lemma get_env_var_clean_value_witness :
  Helper.get_env_var Scenario.environ "MODEL_PHI" = Some "phi-4".
Proof.
  apply (Helper_more.get_env_var_clean_value Scenario.environ "MODEL_PHI"
           "phi-4").
  - by vm_compute.
  - intros c [= <-]. reflexivity.
  - intros c [= <-]. split; reflexivity.
Defined.

Lemma get_env_var_blank_witness :
  Helper.get_env_var {[ "API_BASE_URL" := "   " ]} "API_BASE_URL"
  = Some EmptyString.
Proof.
  apply (Helper_more.get_env_var_blank {[ "API_BASE_URL" := "   " ]}
           "API_BASE_URL" "   ").
  - by vm_compute.
  - reflexivity.
Defined.

Lemma get_env_var_no_leading_space_witness :
  Helper.is_space "a"%char = false.
Proof.
  apply (Helper_more.get_env_var_no_leading_space
           {[ "API_BASE_URL" := " a ," ]} "API_BASE_URL" "a " "a"%char).
  - by vm_compute.
  - reflexivity.
Defined.
